(** * agnosticmapper: canonical JSON to JSON-LD instances

    A shallow embedding of [agnosticmapper/agnosticmapper.py]: the label
    index ([__create_labelmaps]), the label resolver
    ([__get_class_by_label]), the structural mapper
    ([__create_jsonld_instances] with its local [__fill_class_map]), the
    namespace pass ([__apply_namespaces]) and the identity pass
    ([__apply_uuids]).  Parsing of the ontologies and serialisation to
    Turtle belong to rdflib and are outside the embedding: a run is given
    what parsing comes to (rdflib's exception, or the rows the two SPARQL
    queries return on the graph), the label index is built from those rows,
    and a run ends with the list of JSON-LD instances handed to rdflib. *)

From Stdlib Require Import ZArith String Ascii List Bool Lia.
From Stdlib Require Import Decimal DecimalString.
From Stdlib Require DecimalPos DecimalZ.
From stdpp Require Import base option strings list gmap.

Local Open Scope Z_scope.

(** ** Python values

    What [json.loads] produces, which is also what the three passes build.
    Dictionaries keep insertion order (they are association lists without
    duplicate keys); every key is a string.  A float is carried as the text
    Python prints for it, the only thing the mapper ever does with one.  A
    string is carried as its UTF-8 bytes: comparison, concatenation,
    [startswith], [in] and [replace] are the same on the bytes as on the
    characters, while [key[0]], [strip()] and slices go through the
    characters (see [codepoints] below). *)

#[local] Unset Elimination Schemes.
Inductive pyval : Type :=
  | PNone
  | PBool (b : bool)
  | PInt (z : Z)
  | PFloat (repr : string)
  | PStr (s : string)
  | PList (l : list pyval)
  | PDict (d : list (string * pyval)).
#[local] Set Elimination Schemes.

Abbreviation dict := (list (string * pyval)).

(** Exceptions that can leave the mapper. [Exception msg] is the generic
    [raise Exception(msg)] of the source, [ParserError msg] what rdflib
    raises for an ontology it cannot parse. *)
Inductive exn : Type :=
  | Exception (msg : string)
  | TypeError
  | KeyError (key : string)
  | IndexError
  | AttributeError
  | ParserError (msg : string).

Inductive result (A : Type) : Type :=
  | Ok (a : A)
  | Err (e : exn).
Arguments Ok {A} a.
Arguments Err {A} e.

(** A state-and-exception monad: an exception aborts the run, the state of
    the aborted run is lost. *)
Definition M (S A : Type) : Type := S → result (A * S).

Definition ret {S A} (a : A) : M S A := λ s, Ok (a, s).
Definition raise {S A} (e : exn) : M S A := λ _, Err e.
Definition bind {S A B} (m : M S A) (k : A → M S B) : M S B :=
  λ s, match m s with
       | Ok (a, s') => k a s'
       | Err e => Err e
       end.
Definition lift {S A} (r : result A) : M S A :=
  λ s, match r with Ok a => Ok (a, s) | Err e => Err e end.

Notation "'let*' x ':=' m 'in' k" := (bind m (λ x, k))
  (at level 10, x pattern, m at level 100, k at level 200).

Definition rbind {A B} (r : result A) (k : A → result B) : result B :=
  match r with Ok a => k a | Err e => Err e end.

Notation "'let+' x ':=' r 'in' k" := (rbind r (λ x, k))
  (at level 10, x pattern, r at level 100, k at level 200).

(** ** Built-ins of Python the mapper relies on *)

(** [bool(v)]: the truth value of an object. *)
Definition py_truthy (v : pyval) : bool :=
  match v with
  | PNone => false
  | PBool b => b
  | PInt z => negb (z =? 0)
  | PFloat r => negb (String.eqb r "0.0" || String.eqb r "-0.0")
  | PStr s => negb (String.eqb s "")
  | PList l => match l with [] => false | _ => true end
  | PDict d => match d with [] => false | _ => true end
  end.

(** [isinstance(v, (bool, int, float, str))]. *)
Definition is_primitive (element : pyval) : bool :=
  match element with
  | PBool _ | PInt _ | PFloat _ | PStr _ => true
  | _ => false
  end.

Definition is_dict (v : pyval) : bool :=
  match v with PDict _ => true | _ => false end.
Definition is_list (v : pyval) : bool :=
  match v with PList _ => true | _ => false end.

Definition string_of_Z (z : Z) : string := NilZero.string_of_int (Z.to_int z).

Definition hex_digit (n : N) : ascii :=
  if (n <? 10)%N then ascii_of_N (48 + n) else ascii_of_N (87 + n).

(** [repr] of a [str], for text whose characters outside ASCII are
    printable (they are left as they are): single quotes unless the text holds a
    single quote and no double quote; backslash, the quote in use, newline,
    carriage return and tab escaped; other control characters as [\xNN]. *)
Fixpoint repr_chars (q : ascii) (s : string) : string :=
  match s with
  | EmptyString => EmptyString
  | String c rest =>
      let n := N_of_ascii c in
      let tail := repr_chars q rest in
      if Ascii.eqb c "\"%char then String "\" (String "\" tail)
      else if Ascii.eqb c q then String "\" (String c tail)
      else if (n =? 10)%N then String "\" (String "n" tail)
      else if (n =? 13)%N then String "\" (String "r" tail)
      else if (n =? 9)%N then String "\" (String "t" tail)
      else if ((n <? 32) || (n =? 127))%N then
        String "\" (String "x" (String (hex_digit (n / 16))
                                  (String (hex_digit (n mod 16)) tail)))
      else String c tail
  end.

Fixpoint has_char (c : ascii) (s : string) : bool :=
  match s with
  | EmptyString => false
  | String c' rest => Ascii.eqb c c' || has_char c rest
  end.

Definition double_quote : ascii := ascii_of_N 34.

Definition str_repr (s : string) : string :=
  let q : ascii :=
    if has_char "'"%char s && negb (has_char double_quote s)
    then double_quote else "'"%char in
  String q (repr_chars q s +:+ String q EmptyString).

Fixpoint join (sep : string) (parts : list string) : string :=
  match parts with
  | [] => ""
  | [p] => p
  | p :: rest => p +:+ sep +:+ join sep rest
  end.

Fixpoint py_repr (v : pyval) : string :=
  match v with
  | PNone => "None"
  | PBool true => "True"
  | PBool false => "False"
  | PInt z => string_of_Z z
  | PFloat r => r
  | PStr s => str_repr s
  | PList l => "[" +:+ join ", " (map py_repr l) +:+ "]"
  | PDict d =>
      "{" +:+ join ", " (map (λ kv, str_repr (fst kv) +:+ ": " +:+ py_repr (snd kv)) d)
          +:+ "}"
  end.

(** [str(v)], which is also what an f-string substitutes. *)
Definition py_str (v : pyval) : string :=
  match v with
  | PStr s => s
  | _ => py_repr v
  end.

(** ** Dictionaries *)

(** [d.get(k)] as an option. *)
Fixpoint dict_get {V} (k : string) (d : list (string * V)) : option V :=
  match d with
  | [] => None
  | (k', v) :: rest => if String.eqb k k' then Some v else dict_get k rest
  end.

(** [d[k] = v]: an existing key keeps its place, a new one goes last. *)
Fixpoint dict_set {V} (k : string) (v : V) (d : list (string * V))
    : list (string * V) :=
  match d with
  | [] => [(k, v)]
  | (k', v') :: rest =>
      if String.eqb k k' then (k', v) :: rest else (k', v') :: dict_set k v rest
  end.

Definition dict_keys {V} (d : list (string * V)) : list string := map fst d.

(** [k in d]. *)
Definition dict_has {V} (k : string) (d : list (string * V)) : bool :=
  match dict_get k d with Some _ => true | None => false end.

(** [d.update(e)]. *)
Definition dict_update {V} (d e : list (string * V)) : list (string * V) :=
  fold_left (λ acc kv, dict_set (fst kv) (snd kv) acc) e d.

(** [len(d)]. *)
Definition dict_len {V} (d : list (string * V)) : Z := Z.of_nat (length d).

(** [k in l] for a list of strings. *)
Definition str_in (k : string) (l : list string) : bool :=
  existsb (String.eqb k) l.

(** ** The label index ([__create_labelmaps])

    Two dictionaries of dictionaries, language tag to label text to IRI. The
    order of their entries is never observed, so they are finite maps. *)

Record label_row : Type := { lbl : string; cls : string; lang : string }.

Record label_index : Type := {
  labelmaps : gmap string (gmap string string);
  altlabelmaps : gmap string (gmap string string)
}.

(** The "always available" languages, created empty before the query. *)
Definition prepared_maps : gmap string (gmap string string) :=
  <["de" := ∅]> (<["nolang" := ∅]> (<["en-gb" := ∅]> (<["en-us" := ∅]>
    (<["en" := ∅]> ∅)))).

(** One iteration of [for row in query]. *)
Definition add_row (m : gmap string (gmap string string)) (row : label_row)
    : gmap string (gmap string string) :=
  let lang := if String.eqb (lang row) "" then "nolang" else lang row in
  let m := match m !! lang with None => <[lang := ∅]> m | Some _ => m end in
  alter (λ inner, <[lbl row := cls row]> inner) lang m.

Definition create_labelmaps (label_rows altlabel_rows : list label_row)
    : label_index :=
  {| labelmaps := foldl add_row prepared_maps label_rows;
     altlabelmaps := foldl add_row prepared_maps altlabel_rows |}.

(** ** The label resolver ([__get_class_by_label]) *)

(** [if label in maps[lang]: return maps[lang][label]], followed by the rest
    of the function. A missing language is a [KeyError]; asking a dictionary
    for an unhashable label is a [TypeError]; a hashable label that is not a
    string is in no map, whose keys are all strings. *)
Definition if_label_in (maps : gmap string (gmap string string))
    (lang : string) (label : pyval) (otherwise : result pyval) : result pyval :=
  match maps !! lang with
  | None => Err (KeyError lang)
  | Some m =>
      match label with
      | PStr s => match m !! s with Some iri => Ok (PStr iri) | None => otherwise end
      | PList _ | PDict _ => Err TypeError
      | _ => otherwise
      end
  end.

(** [default] is [PNone] when the caller leaves it out. *)
Definition get_class_by_label (idx : label_index) (label default : pyval)
    : result pyval :=
  if is_list label then Ok default
  else
    if_label_in (altlabelmaps idx) "en" label (
    if_label_in (altlabelmaps idx) "en-us" label (
    if_label_in (altlabelmaps idx) "en-gb" label (
    if_label_in (altlabelmaps idx) "nolang" label (
    if_label_in (labelmaps idx) "en" label (
    if_label_in (labelmaps idx) "en-us" label (
    if_label_in (labelmaps idx) "en-gb" label (
    if_label_in (labelmaps idx) "nolang" label (
    if_label_in (altlabelmaps idx) "de" label (
    if_label_in (labelmaps idx) "de" label (
      if negb (py_truthy default)
      then Err (Exception ("Error finding class for label " +:+ py_str label))
      else Ok default)))))))))).

(** The resolver's result used as a dictionary key or as text. With a string
    label and a string default it always is a string. *)
Definition expect_str (v : pyval) : result string :=
  match v with PStr s => Ok s | _ => Err TypeError end.

Definition resolve_key (idx : label_index) (key default : string) : result string :=
  let+ r := get_class_by_label idx (PStr key) (PStr default) in expect_str r.

Definition rdfs_label : string := "http://www.w3.org/2000/01/rdf-schema#label".

(** [__create_entity_instation_entity_list]. *)
Fixpoint create_entity_instation_entity_list (idx : label_index)
    (ignoreEntityInstantiationList : list string) : result (list pyval) :=
  match ignoreEntityInstantiationList with
  | [] => Ok []
  | elem :: rest =>
      let+ r := get_class_by_label idx (PStr elem) (PStr elem) in
      let+ rs := create_entity_instation_entity_list idx rest in
      Ok (r :: rs)
  end.

(** ** The structural mapper ([__create_jsonld_instances]) *)

(** The module-level counter [incrementalInt] and the [classMap] of the
    running [__create_jsonld_instances]. *)
Record mapper_state : Type := {
  incrementalInt : Z;
  classMap : list (string * dict)
}.

Definition get_incremental_int : M mapper_state Z :=
  λ st, let n := incrementalInt st + 1 in
        Ok (n, {| incrementalInt := n; classMap := classMap st |}).

(** *** Characters

    The characters (code points) of a string, read off its UTF-8 bytes.
    [need] continuation bytes are still due for the character being read,
    whose bits so far are [acc]. Bytes that are no UTF-8, which no Python
    string gives, are read as U+FFFD. *)
Definition is_continuation (b : ascii) : bool :=
  let n := N_of_ascii b in ((128 <=? n) && (n <? 192))%N.

Fixpoint codepoints_from (need : nat) (acc : N) (s : string) : list N :=
  match s with
  | EmptyString => match need with O => [] | S _ => [65533%N] end
  | String b rest =>
      let n := N_of_ascii b in
      match need with
      | O =>
          if (n <? 128)%N then n :: codepoints_from 0 0 rest
          else if (n <? 192)%N then 65533%N :: codepoints_from 0 0 rest
          else if (n <? 224)%N then codepoints_from 1 (n - 192) rest
          else if (n <? 240)%N then codepoints_from 2 (n - 224) rest
          else if (n <? 248)%N then codepoints_from 3 (n - 240) rest
          else 65533%N :: codepoints_from 0 0 rest
      | S k =>
          if is_continuation b then
            let acc' := (acc * 64 + (n - 128))%N in
            match k with
            | O => acc' :: codepoints_from 0 0 rest
            | S _ => codepoints_from k acc' rest
            end
          else 65533%N :: codepoints_from 0 0 rest
      end
  end.

Definition codepoints (s : string) : list N := codepoints_from 0 0 s.

(** [s[:n]]: the first [n] characters. A continuation byte belongs to the
    character counted last. *)
Fixpoint str_take (n : nat) (s : string) : string :=
  match s with
  | EmptyString => EmptyString
  | String b rest =>
      if is_continuation b then String b (str_take n rest)
      else match n with
           | O => EmptyString
           | S k => String b (str_take k rest)
           end
  end.

(** [key[0]]. *)
Definition first_char (key : string) : result N :=
  match codepoints key with
  | [] => Err IndexError
  | c :: _ => Ok c
  end.

(** Membership in a table of closed ranges. *)
Definition in_ranges (table : list (N * N)) (c : N) : bool :=
  existsb (λ r, (fst r <=? c)%N && (c <=? snd r)%N) table.

(** The code points [c] with [chr(c).isupper()], as closed ranges in
    increasing order (Unicode 14.0, the character database of CPython 3.11). *)
Definition uppercase_ranges : list (N * N) :=
  [(65, 90); (192, 214); (216, 222); (256, 256); (258, 258); (260, 260);
   (262, 262); (264, 264); (266, 266); (268, 268); (270, 270); (272, 272);
   (274, 274); (276, 276); (278, 278); (280, 280); (282, 282); (284, 284);
   (286, 286); (288, 288); (290, 290); (292, 292); (294, 294); (296, 296);
   (298, 298); (300, 300); (302, 302); (304, 304); (306, 306); (308, 308);
   (310, 310); (313, 313); (315, 315); (317, 317); (319, 319); (321, 321);
   (323, 323); (325, 325); (327, 327); (330, 330); (332, 332); (334, 334);
   (336, 336); (338, 338); (340, 340); (342, 342); (344, 344); (346, 346);
   (348, 348); (350, 350); (352, 352); (354, 354); (356, 356); (358, 358);
   (360, 360); (362, 362); (364, 364); (366, 366); (368, 368); (370, 370);
   (372, 372); (374, 374); (376, 377); (379, 379); (381, 381); (385, 386);
   (388, 388); (390, 391); (393, 395); (398, 401); (403, 404); (406, 408);
   (412, 413); (415, 416); (418, 418); (420, 420); (422, 423); (425, 425);
   (428, 428); (430, 431); (433, 435); (437, 437); (439, 440); (444, 444);
   (452, 452); (455, 455); (458, 458); (461, 461); (463, 463); (465, 465);
   (467, 467); (469, 469); (471, 471); (473, 473); (475, 475); (478, 478);
   (480, 480); (482, 482); (484, 484); (486, 486); (488, 488); (490, 490);
   (492, 492); (494, 494); (497, 497); (500, 500); (502, 504); (506, 506);
   (508, 508); (510, 510); (512, 512); (514, 514); (516, 516); (518, 518);
   (520, 520); (522, 522); (524, 524); (526, 526); (528, 528); (530, 530);
   (532, 532); (534, 534); (536, 536); (538, 538); (540, 540); (542, 542);
   (544, 544); (546, 546); (548, 548); (550, 550); (552, 552); (554, 554);
   (556, 556); (558, 558); (560, 560); (562, 562); (570, 571); (573, 574);
   (577, 577); (579, 582); (584, 584); (586, 586); (588, 588); (590, 590);
   (880, 880); (882, 882); (886, 886); (895, 895); (902, 902); (904, 906);
   (908, 908); (910, 911); (913, 929); (931, 939); (975, 975); (978, 980);
   (984, 984); (986, 986); (988, 988); (990, 990); (992, 992); (994, 994);
   (996, 996); (998, 998); (1000, 1000); (1002, 1002); (1004, 1004);
   (1006, 1006); (1012, 1012); (1015, 1015); (1017, 1018); (1021, 1071);
   (1120, 1120); (1122, 1122); (1124, 1124); (1126, 1126); (1128, 1128);
   (1130, 1130); (1132, 1132); (1134, 1134); (1136, 1136); (1138, 1138);
   (1140, 1140); (1142, 1142); (1144, 1144); (1146, 1146); (1148, 1148);
   (1150, 1150); (1152, 1152); (1162, 1162); (1164, 1164); (1166, 1166);
   (1168, 1168); (1170, 1170); (1172, 1172); (1174, 1174); (1176, 1176);
   (1178, 1178); (1180, 1180); (1182, 1182); (1184, 1184); (1186, 1186);
   (1188, 1188); (1190, 1190); (1192, 1192); (1194, 1194); (1196, 1196);
   (1198, 1198); (1200, 1200); (1202, 1202); (1204, 1204); (1206, 1206);
   (1208, 1208); (1210, 1210); (1212, 1212); (1214, 1214); (1216, 1217);
   (1219, 1219); (1221, 1221); (1223, 1223); (1225, 1225); (1227, 1227);
   (1229, 1229); (1232, 1232); (1234, 1234); (1236, 1236); (1238, 1238);
   (1240, 1240); (1242, 1242); (1244, 1244); (1246, 1246); (1248, 1248);
   (1250, 1250); (1252, 1252); (1254, 1254); (1256, 1256); (1258, 1258);
   (1260, 1260); (1262, 1262); (1264, 1264); (1266, 1266); (1268, 1268);
   (1270, 1270); (1272, 1272); (1274, 1274); (1276, 1276); (1278, 1278);
   (1280, 1280); (1282, 1282); (1284, 1284); (1286, 1286); (1288, 1288);
   (1290, 1290); (1292, 1292); (1294, 1294); (1296, 1296); (1298, 1298);
   (1300, 1300); (1302, 1302); (1304, 1304); (1306, 1306); (1308, 1308);
   (1310, 1310); (1312, 1312); (1314, 1314); (1316, 1316); (1318, 1318);
   (1320, 1320); (1322, 1322); (1324, 1324); (1326, 1326); (1329, 1366);
   (4256, 4293); (4295, 4295); (4301, 4301); (5024, 5109); (7312, 7354);
   (7357, 7359); (7680, 7680); (7682, 7682); (7684, 7684); (7686, 7686);
   (7688, 7688); (7690, 7690); (7692, 7692); (7694, 7694); (7696, 7696);
   (7698, 7698); (7700, 7700); (7702, 7702); (7704, 7704); (7706, 7706);
   (7708, 7708); (7710, 7710); (7712, 7712); (7714, 7714); (7716, 7716);
   (7718, 7718); (7720, 7720); (7722, 7722); (7724, 7724); (7726, 7726);
   (7728, 7728); (7730, 7730); (7732, 7732); (7734, 7734); (7736, 7736);
   (7738, 7738); (7740, 7740); (7742, 7742); (7744, 7744); (7746, 7746);
   (7748, 7748); (7750, 7750); (7752, 7752); (7754, 7754); (7756, 7756);
   (7758, 7758); (7760, 7760); (7762, 7762); (7764, 7764); (7766, 7766);
   (7768, 7768); (7770, 7770); (7772, 7772); (7774, 7774); (7776, 7776);
   (7778, 7778); (7780, 7780); (7782, 7782); (7784, 7784); (7786, 7786);
   (7788, 7788); (7790, 7790); (7792, 7792); (7794, 7794); (7796, 7796);
   (7798, 7798); (7800, 7800); (7802, 7802); (7804, 7804); (7806, 7806);
   (7808, 7808); (7810, 7810); (7812, 7812); (7814, 7814); (7816, 7816);
   (7818, 7818); (7820, 7820); (7822, 7822); (7824, 7824); (7826, 7826);
   (7828, 7828); (7838, 7838); (7840, 7840); (7842, 7842); (7844, 7844);
   (7846, 7846); (7848, 7848); (7850, 7850); (7852, 7852); (7854, 7854);
   (7856, 7856); (7858, 7858); (7860, 7860); (7862, 7862); (7864, 7864);
   (7866, 7866); (7868, 7868); (7870, 7870); (7872, 7872); (7874, 7874);
   (7876, 7876); (7878, 7878); (7880, 7880); (7882, 7882); (7884, 7884);
   (7886, 7886); (7888, 7888); (7890, 7890); (7892, 7892); (7894, 7894);
   (7896, 7896); (7898, 7898); (7900, 7900); (7902, 7902); (7904, 7904);
   (7906, 7906); (7908, 7908); (7910, 7910); (7912, 7912); (7914, 7914);
   (7916, 7916); (7918, 7918); (7920, 7920); (7922, 7922); (7924, 7924);
   (7926, 7926); (7928, 7928); (7930, 7930); (7932, 7932); (7934, 7934);
   (7944, 7951); (7960, 7965); (7976, 7983); (7992, 7999); (8008, 8013);
   (8025, 8025); (8027, 8027); (8029, 8029); (8031, 8031); (8040, 8047);
   (8120, 8123); (8136, 8139); (8152, 8155); (8168, 8172); (8184, 8187);
   (8450, 8450); (8455, 8455); (8459, 8461); (8464, 8466); (8469, 8469);
   (8473, 8477); (8484, 8484); (8486, 8486); (8488, 8488); (8490, 8493);
   (8496, 8499); (8510, 8511); (8517, 8517); (8544, 8559); (8579, 8579);
   (9398, 9423); (11264, 11311); (11360, 11360); (11362, 11364);
   (11367, 11367); (11369, 11369); (11371, 11371); (11373, 11376);
   (11378, 11378); (11381, 11381); (11390, 11392); (11394, 11394);
   (11396, 11396); (11398, 11398); (11400, 11400); (11402, 11402);
   (11404, 11404); (11406, 11406); (11408, 11408); (11410, 11410);
   (11412, 11412); (11414, 11414); (11416, 11416); (11418, 11418);
   (11420, 11420); (11422, 11422); (11424, 11424); (11426, 11426);
   (11428, 11428); (11430, 11430); (11432, 11432); (11434, 11434);
   (11436, 11436); (11438, 11438); (11440, 11440); (11442, 11442);
   (11444, 11444); (11446, 11446); (11448, 11448); (11450, 11450);
   (11452, 11452); (11454, 11454); (11456, 11456); (11458, 11458);
   (11460, 11460); (11462, 11462); (11464, 11464); (11466, 11466);
   (11468, 11468); (11470, 11470); (11472, 11472); (11474, 11474);
   (11476, 11476); (11478, 11478); (11480, 11480); (11482, 11482);
   (11484, 11484); (11486, 11486); (11488, 11488); (11490, 11490);
   (11499, 11499); (11501, 11501); (11506, 11506); (42560, 42560);
   (42562, 42562); (42564, 42564); (42566, 42566); (42568, 42568);
   (42570, 42570); (42572, 42572); (42574, 42574); (42576, 42576);
   (42578, 42578); (42580, 42580); (42582, 42582); (42584, 42584);
   (42586, 42586); (42588, 42588); (42590, 42590); (42592, 42592);
   (42594, 42594); (42596, 42596); (42598, 42598); (42600, 42600);
   (42602, 42602); (42604, 42604); (42624, 42624); (42626, 42626);
   (42628, 42628); (42630, 42630); (42632, 42632); (42634, 42634);
   (42636, 42636); (42638, 42638); (42640, 42640); (42642, 42642);
   (42644, 42644); (42646, 42646); (42648, 42648); (42650, 42650);
   (42786, 42786); (42788, 42788); (42790, 42790); (42792, 42792);
   (42794, 42794); (42796, 42796); (42798, 42798); (42802, 42802);
   (42804, 42804); (42806, 42806); (42808, 42808); (42810, 42810);
   (42812, 42812); (42814, 42814); (42816, 42816); (42818, 42818);
   (42820, 42820); (42822, 42822); (42824, 42824); (42826, 42826);
   (42828, 42828); (42830, 42830); (42832, 42832); (42834, 42834);
   (42836, 42836); (42838, 42838); (42840, 42840); (42842, 42842);
   (42844, 42844); (42846, 42846); (42848, 42848); (42850, 42850);
   (42852, 42852); (42854, 42854); (42856, 42856); (42858, 42858);
   (42860, 42860); (42862, 42862); (42873, 42873); (42875, 42875);
   (42877, 42878); (42880, 42880); (42882, 42882); (42884, 42884);
   (42886, 42886); (42891, 42891); (42893, 42893); (42896, 42896);
   (42898, 42898); (42902, 42902); (42904, 42904); (42906, 42906);
   (42908, 42908); (42910, 42910); (42912, 42912); (42914, 42914);
   (42916, 42916); (42918, 42918); (42920, 42920); (42922, 42926);
   (42928, 42932); (42934, 42934); (42936, 42936); (42938, 42938);
   (42940, 42940); (42942, 42942); (42944, 42944); (42946, 42946);
   (42948, 42951); (42953, 42953); (42960, 42960); (42966, 42966);
   (42968, 42968); (42997, 42997); (65313, 65338); (66560, 66599);
   (66736, 66771); (66928, 66938); (66940, 66954); (66956, 66962);
   (66964, 66965); (68736, 68786); (71840, 71871); (93760, 93791);
   (119808, 119833); (119860, 119885); (119912, 119937); (119964, 119964);
   (119966, 119967); (119970, 119970); (119973, 119974); (119977, 119980);
   (119982, 119989); (120016, 120041); (120068, 120069); (120071, 120074);
   (120077, 120084); (120086, 120092); (120120, 120121); (120123, 120126);
   (120128, 120132); (120134, 120134); (120138, 120144); (120172, 120197);
   (120224, 120249); (120276, 120301); (120328, 120353); (120380, 120405);
   (120432, 120457); (120488, 120512); (120546, 120570); (120604, 120628);
   (120662, 120686); (120720, 120744); (120778, 120778); (125184, 125217);
   (127280, 127305); (127312, 127337); (127344, 127369)]%N.

(** The code points [c] with [chr(c).islower()]. *)
Definition lowercase_ranges : list (N * N) :=
  [(97, 122); (170, 170); (181, 181); (186, 186); (223, 246); (248, 255);
   (257, 257); (259, 259); (261, 261); (263, 263); (265, 265); (267, 267);
   (269, 269); (271, 271); (273, 273); (275, 275); (277, 277); (279, 279);
   (281, 281); (283, 283); (285, 285); (287, 287); (289, 289); (291, 291);
   (293, 293); (295, 295); (297, 297); (299, 299); (301, 301); (303, 303);
   (305, 305); (307, 307); (309, 309); (311, 312); (314, 314); (316, 316);
   (318, 318); (320, 320); (322, 322); (324, 324); (326, 326); (328, 329);
   (331, 331); (333, 333); (335, 335); (337, 337); (339, 339); (341, 341);
   (343, 343); (345, 345); (347, 347); (349, 349); (351, 351); (353, 353);
   (355, 355); (357, 357); (359, 359); (361, 361); (363, 363); (365, 365);
   (367, 367); (369, 369); (371, 371); (373, 373); (375, 375); (378, 378);
   (380, 380); (382, 384); (387, 387); (389, 389); (392, 392); (396, 397);
   (402, 402); (405, 405); (409, 411); (414, 414); (417, 417); (419, 419);
   (421, 421); (424, 424); (426, 427); (429, 429); (432, 432); (436, 436);
   (438, 438); (441, 442); (445, 447); (454, 454); (457, 457); (460, 460);
   (462, 462); (464, 464); (466, 466); (468, 468); (470, 470); (472, 472);
   (474, 474); (476, 477); (479, 479); (481, 481); (483, 483); (485, 485);
   (487, 487); (489, 489); (491, 491); (493, 493); (495, 496); (499, 499);
   (501, 501); (505, 505); (507, 507); (509, 509); (511, 511); (513, 513);
   (515, 515); (517, 517); (519, 519); (521, 521); (523, 523); (525, 525);
   (527, 527); (529, 529); (531, 531); (533, 533); (535, 535); (537, 537);
   (539, 539); (541, 541); (543, 543); (545, 545); (547, 547); (549, 549);
   (551, 551); (553, 553); (555, 555); (557, 557); (559, 559); (561, 561);
   (563, 569); (572, 572); (575, 576); (578, 578); (583, 583); (585, 585);
   (587, 587); (589, 589); (591, 659); (661, 696); (704, 705); (736, 740);
   (837, 837); (881, 881); (883, 883); (887, 887); (890, 893); (912, 912);
   (940, 974); (976, 977); (981, 983); (985, 985); (987, 987); (989, 989);
   (991, 991); (993, 993); (995, 995); (997, 997); (999, 999); (1001, 1001);
   (1003, 1003); (1005, 1005); (1007, 1011); (1013, 1013); (1016, 1016);
   (1019, 1020); (1072, 1119); (1121, 1121); (1123, 1123); (1125, 1125);
   (1127, 1127); (1129, 1129); (1131, 1131); (1133, 1133); (1135, 1135);
   (1137, 1137); (1139, 1139); (1141, 1141); (1143, 1143); (1145, 1145);
   (1147, 1147); (1149, 1149); (1151, 1151); (1153, 1153); (1163, 1163);
   (1165, 1165); (1167, 1167); (1169, 1169); (1171, 1171); (1173, 1173);
   (1175, 1175); (1177, 1177); (1179, 1179); (1181, 1181); (1183, 1183);
   (1185, 1185); (1187, 1187); (1189, 1189); (1191, 1191); (1193, 1193);
   (1195, 1195); (1197, 1197); (1199, 1199); (1201, 1201); (1203, 1203);
   (1205, 1205); (1207, 1207); (1209, 1209); (1211, 1211); (1213, 1213);
   (1215, 1215); (1218, 1218); (1220, 1220); (1222, 1222); (1224, 1224);
   (1226, 1226); (1228, 1228); (1230, 1231); (1233, 1233); (1235, 1235);
   (1237, 1237); (1239, 1239); (1241, 1241); (1243, 1243); (1245, 1245);
   (1247, 1247); (1249, 1249); (1251, 1251); (1253, 1253); (1255, 1255);
   (1257, 1257); (1259, 1259); (1261, 1261); (1263, 1263); (1265, 1265);
   (1267, 1267); (1269, 1269); (1271, 1271); (1273, 1273); (1275, 1275);
   (1277, 1277); (1279, 1279); (1281, 1281); (1283, 1283); (1285, 1285);
   (1287, 1287); (1289, 1289); (1291, 1291); (1293, 1293); (1295, 1295);
   (1297, 1297); (1299, 1299); (1301, 1301); (1303, 1303); (1305, 1305);
   (1307, 1307); (1309, 1309); (1311, 1311); (1313, 1313); (1315, 1315);
   (1317, 1317); (1319, 1319); (1321, 1321); (1323, 1323); (1325, 1325);
   (1327, 1327); (1376, 1416); (4304, 4346); (4349, 4351); (5112, 5117);
   (7296, 7304); (7424, 7615); (7681, 7681); (7683, 7683); (7685, 7685);
   (7687, 7687); (7689, 7689); (7691, 7691); (7693, 7693); (7695, 7695);
   (7697, 7697); (7699, 7699); (7701, 7701); (7703, 7703); (7705, 7705);
   (7707, 7707); (7709, 7709); (7711, 7711); (7713, 7713); (7715, 7715);
   (7717, 7717); (7719, 7719); (7721, 7721); (7723, 7723); (7725, 7725);
   (7727, 7727); (7729, 7729); (7731, 7731); (7733, 7733); (7735, 7735);
   (7737, 7737); (7739, 7739); (7741, 7741); (7743, 7743); (7745, 7745);
   (7747, 7747); (7749, 7749); (7751, 7751); (7753, 7753); (7755, 7755);
   (7757, 7757); (7759, 7759); (7761, 7761); (7763, 7763); (7765, 7765);
   (7767, 7767); (7769, 7769); (7771, 7771); (7773, 7773); (7775, 7775);
   (7777, 7777); (7779, 7779); (7781, 7781); (7783, 7783); (7785, 7785);
   (7787, 7787); (7789, 7789); (7791, 7791); (7793, 7793); (7795, 7795);
   (7797, 7797); (7799, 7799); (7801, 7801); (7803, 7803); (7805, 7805);
   (7807, 7807); (7809, 7809); (7811, 7811); (7813, 7813); (7815, 7815);
   (7817, 7817); (7819, 7819); (7821, 7821); (7823, 7823); (7825, 7825);
   (7827, 7827); (7829, 7837); (7839, 7839); (7841, 7841); (7843, 7843);
   (7845, 7845); (7847, 7847); (7849, 7849); (7851, 7851); (7853, 7853);
   (7855, 7855); (7857, 7857); (7859, 7859); (7861, 7861); (7863, 7863);
   (7865, 7865); (7867, 7867); (7869, 7869); (7871, 7871); (7873, 7873);
   (7875, 7875); (7877, 7877); (7879, 7879); (7881, 7881); (7883, 7883);
   (7885, 7885); (7887, 7887); (7889, 7889); (7891, 7891); (7893, 7893);
   (7895, 7895); (7897, 7897); (7899, 7899); (7901, 7901); (7903, 7903);
   (7905, 7905); (7907, 7907); (7909, 7909); (7911, 7911); (7913, 7913);
   (7915, 7915); (7917, 7917); (7919, 7919); (7921, 7921); (7923, 7923);
   (7925, 7925); (7927, 7927); (7929, 7929); (7931, 7931); (7933, 7933);
   (7935, 7943); (7952, 7957); (7968, 7975); (7984, 7991); (8000, 8005);
   (8016, 8023); (8032, 8039); (8048, 8061); (8064, 8071); (8080, 8087);
   (8096, 8103); (8112, 8116); (8118, 8119); (8126, 8126); (8130, 8132);
   (8134, 8135); (8144, 8147); (8150, 8151); (8160, 8167); (8178, 8180);
   (8182, 8183); (8305, 8305); (8319, 8319); (8336, 8348); (8458, 8458);
   (8462, 8463); (8467, 8467); (8495, 8495); (8500, 8500); (8505, 8505);
   (8508, 8509); (8518, 8521); (8526, 8526); (8560, 8575); (8580, 8580);
   (9424, 9449); (11312, 11359); (11361, 11361); (11365, 11366);
   (11368, 11368); (11370, 11370); (11372, 11372); (11377, 11377);
   (11379, 11380); (11382, 11389); (11393, 11393); (11395, 11395);
   (11397, 11397); (11399, 11399); (11401, 11401); (11403, 11403);
   (11405, 11405); (11407, 11407); (11409, 11409); (11411, 11411);
   (11413, 11413); (11415, 11415); (11417, 11417); (11419, 11419);
   (11421, 11421); (11423, 11423); (11425, 11425); (11427, 11427);
   (11429, 11429); (11431, 11431); (11433, 11433); (11435, 11435);
   (11437, 11437); (11439, 11439); (11441, 11441); (11443, 11443);
   (11445, 11445); (11447, 11447); (11449, 11449); (11451, 11451);
   (11453, 11453); (11455, 11455); (11457, 11457); (11459, 11459);
   (11461, 11461); (11463, 11463); (11465, 11465); (11467, 11467);
   (11469, 11469); (11471, 11471); (11473, 11473); (11475, 11475);
   (11477, 11477); (11479, 11479); (11481, 11481); (11483, 11483);
   (11485, 11485); (11487, 11487); (11489, 11489); (11491, 11492);
   (11500, 11500); (11502, 11502); (11507, 11507); (11520, 11557);
   (11559, 11559); (11565, 11565); (42561, 42561); (42563, 42563);
   (42565, 42565); (42567, 42567); (42569, 42569); (42571, 42571);
   (42573, 42573); (42575, 42575); (42577, 42577); (42579, 42579);
   (42581, 42581); (42583, 42583); (42585, 42585); (42587, 42587);
   (42589, 42589); (42591, 42591); (42593, 42593); (42595, 42595);
   (42597, 42597); (42599, 42599); (42601, 42601); (42603, 42603);
   (42605, 42605); (42625, 42625); (42627, 42627); (42629, 42629);
   (42631, 42631); (42633, 42633); (42635, 42635); (42637, 42637);
   (42639, 42639); (42641, 42641); (42643, 42643); (42645, 42645);
   (42647, 42647); (42649, 42649); (42651, 42653); (42787, 42787);
   (42789, 42789); (42791, 42791); (42793, 42793); (42795, 42795);
   (42797, 42797); (42799, 42801); (42803, 42803); (42805, 42805);
   (42807, 42807); (42809, 42809); (42811, 42811); (42813, 42813);
   (42815, 42815); (42817, 42817); (42819, 42819); (42821, 42821);
   (42823, 42823); (42825, 42825); (42827, 42827); (42829, 42829);
   (42831, 42831); (42833, 42833); (42835, 42835); (42837, 42837);
   (42839, 42839); (42841, 42841); (42843, 42843); (42845, 42845);
   (42847, 42847); (42849, 42849); (42851, 42851); (42853, 42853);
   (42855, 42855); (42857, 42857); (42859, 42859); (42861, 42861);
   (42863, 42872); (42874, 42874); (42876, 42876); (42879, 42879);
   (42881, 42881); (42883, 42883); (42885, 42885); (42887, 42887);
   (42892, 42892); (42894, 42894); (42897, 42897); (42899, 42901);
   (42903, 42903); (42905, 42905); (42907, 42907); (42909, 42909);
   (42911, 42911); (42913, 42913); (42915, 42915); (42917, 42917);
   (42919, 42919); (42921, 42921); (42927, 42927); (42933, 42933);
   (42935, 42935); (42937, 42937); (42939, 42939); (42941, 42941);
   (42943, 42943); (42945, 42945); (42947, 42947); (42952, 42952);
   (42954, 42954); (42961, 42961); (42963, 42963); (42965, 42965);
   (42967, 42967); (42969, 42969); (42998, 42998); (43000, 43002);
   (43824, 43866); (43868, 43880); (43888, 43967); (64256, 64262);
   (64275, 64279); (65345, 65370); (66600, 66639); (66776, 66811);
   (66967, 66977); (66979, 66993); (66995, 67001); (67003, 67004);
   (67456, 67456); (67459, 67461); (67463, 67504); (67506, 67514);
   (68800, 68850); (71872, 71903); (93792, 93823); (119834, 119859);
   (119886, 119892); (119894, 119911); (119938, 119963); (119990, 119993);
   (119995, 119995); (119997, 120003); (120005, 120015); (120042, 120067);
   (120094, 120119); (120146, 120171); (120198, 120223); (120250, 120275);
   (120302, 120327); (120354, 120379); (120406, 120431); (120458, 120485);
   (120514, 120538); (120540, 120545); (120572, 120596); (120598, 120603);
   (120630, 120654); (120656, 120661); (120688, 120712); (120714, 120719);
   (120746, 120770); (120772, 120777); (120779, 120779); (122624, 122633);
   (122635, 122654); (125218, 125251)]%N.

(** The code points [c] with [chr(c).isspace()], which are the ones
    [str.strip()] removes. *)
Definition whitespace_ranges : list (N * N) :=
  [(9, 13); (28, 32); (133, 133); (160, 160); (5760, 5760); (8192, 8202);
   (8232, 8233); (8239, 8239); (8287, 8287); (12288, 12288)]%N.

(** [c.isupper()], [c.islower()] and [c.isspace()] of a one-character
    string. *)
Definition is_upper (c : N) : bool := in_ranges uppercase_ranges c.
Definition is_lower (c : N) : bool := in_ranges lowercase_ranges c.
Definition is_space (c : N) : bool := in_ranges whitespace_ranges c.

(** [s.strip()] is the empty (falsy) string. *)
Definition strips_to_empty (s : string) : bool := forallb is_space (codepoints s).

(** [key in container] for a string [key]. *)
Definition py_contains_str (key : string) (container : pyval) : result bool :=
  match container with
  | PList l =>
      Ok (existsb (λ v, match v with PStr s => String.eqb s key | _ => false end) l)
  | PStr s => Ok (match String.index 0 key s with Some _ => true | None => false end)
  | PDict d => Ok (dict_has key d)
  | _ => Err TypeError
  end.

(** [value.get(value["hasIdentifier"], value["hasIdentifier"])]. *)
Definition given_identifier (value : dict) : result pyval :=
  match dict_get "hasIdentifier" value with
  | None => Err (KeyError "hasIdentifier")
  | Some h =>
      match h with
      | PList _ | PDict _ => Err TypeError
      | PStr s => Ok (default h (dict_get s value))
      | _ => Ok h
      end
  end.

(** The [try]/[except] that picks the interim identifier. *)
Definition entity_identifier (key : string) (value : dict) : M mapper_state string :=
  match given_identifier value with
  | Ok identifier => ret (key +:+ "_" +:+ py_str identifier)
  | Err _ =>
      let* n := get_incremental_int in
      ret (key +:+ "_" +:+ string_of_Z n)
  end.

(** The loop over [value["additionalTypes"]]. *)
Fixpoint additional_types (idx : label_index) (l : list pyval) : result (list pyval) :=
  match l with
  | [] => Ok []
  | additionalType :: rest =>
      if py_truthy additionalType then
        match additionalType with
        | PStr s =>
            if strips_to_empty s then additional_types idx rest
            else
              let+ r := get_class_by_label idx additionalType additionalType in
              let+ rs := additional_types idx rest in
              Ok (r :: rs)
        | _ => Err AttributeError
        end
      else additional_types idx rest
  end.

(** [types], from [types = [cls]] to the end of the loop above. *)
Definition entity_types (idx : label_index) (cls : pyval) (value : dict)
    : result (list pyval) :=
  match dict_get "additionalTypes" value with
  | Some (PList l) => let+ more := additional_types idx l in Ok (cls :: more)
  | _ => Ok [cls]
  end.

(** [ldCls] before the keys of the sub-result are copied in. *)
Definition new_ldCls (idx : label_index) (key identifier : string)
    (types : list pyval) : result dict :=
  let+ labelKey := resolve_key idx "label" rdfs_label in
  Ok (dict_set labelKey (PStr key)
        [("@type", PList types); ("@id", PStr identifier)]).

(** [for k, v in subClassMap.items(): if not k == "hasIdentifier": ldCls[k] = v]. *)
Definition copy_sub (subClassMap ldCls : dict) : dict :=
  fold_left
    (λ acc kv, if String.eqb (fst kv) "hasIdentifier" then acc
               else dict_set (fst kv) (snd kv) acc)
    subClassMap ldCls.

(** "Add to the classMap". *)
Definition class_map_add (identifier : string) (ldCls : dict)
    (cm : list (string * dict)) : list (string * dict) :=
  match dict_get identifier cm with
  | None => dict_set identifier ldCls cm
  | Some old =>
      if dict_len ldCls >? dict_len old
      then dict_set identifier (dict_update old ldCls) cm
      else cm
  end.

Definition add_to_class_map (identifier : string) (ldCls : dict) : M mapper_state unit :=
  λ st, Ok (tt, {| incrementalInt := incrementalInt st;
                   classMap := class_map_add identifier ldCls (classMap st) |}).

(** The body of [for key, value in iterable.items()], with the recursive
    call as [self]. After [value = str(value)] the value of [hasIdentifier]
    is a string under a lowercase key that the last branch excludes, so
    nothing is stored for it. *)
Definition fill_item (self : pyval → bool → M mapper_state pyval)
    (idx : label_index) (ignoreEntityInstantiationList : list string)
    (tmpListHandler : pyval) (key : string) (value : pyval) (tmp : dict)
    : M mapper_state dict :=
  if String.eqb key "listHandler" then ret tmp
  else
    let* cls := lift (get_class_by_label idx (PStr key) (PStr "default")) in
    let* c := lift (first_char key) in
    if String.eqb key "hasIdentifier" then ret tmp
    else
      match value with
      | PDict d =>
          if is_upper c then
            let* identifier := entity_identifier key d in
            let* _ :=
              if forallb (λ k, String.eqb k "hasIdentifier") (dict_keys d)
              then ret tt
              else
                let* types := lift (entity_types idx cls d) in
                let* ldCls := lift (new_ldCls idx key identifier types) in
                let* subClassMap := self value false in
                match subClassMap with
                | PDict sub => add_to_class_map identifier (copy_sub sub ldCls)
                | _ => raise AttributeError
                end
            in
            ret (dict_set "@id" (PStr identifier) tmp)
          else if is_lower c then
            let* n := get_incremental_int in
            let identifier := key +:+ "_sub_" +:+ string_of_Z n in
            ret (dict_set key (PDict [("@id", PStr identifier)]) tmp)
          else ret tmp
      | PList _ =>
          let* ordered := lift (py_contains_str key tmpListHandler) in
          let* r := self value ordered in
          ret (dict_set key r tmp)
      | _ =>
          if str_in key ignoreEntityInstantiationList then
            let* r := lift (get_class_by_label idx value value) in
            ret (dict_set key (PDict [("@id", r)]) tmp)
          else ret (dict_set key value tmp)
      end.

(** [__fill_class_map]. Anything that is neither a dictionary nor a list
    falls off the end of the function, which returns [None]. *)
Fixpoint fill_class_map (idx : label_index)
    (ignoreEntityInstantiationList : list string)
    (iterable : pyval) (isOrderedList : bool) {struct iterable}
    : M mapper_state pyval :=
  match iterable with
  | PDict items =>
      let tmpListHandler := default (PList []) (dict_get "listHandler" items) in
      let* tmp :=
        (fix items_loop (its : dict) (tmp : dict) : M mapper_state dict :=
           match its with
           | [] => ret tmp
           | (key, value) :: rest =>
               let* tmp' :=
                 fill_item (fill_class_map idx ignoreEntityInstantiationList)
                   idx ignoreEntityInstantiationList tmpListHandler key value tmp in
               items_loop rest tmp'
           end) items [] in
      ret (PDict tmp)
  | PList l =>
      if forallb is_primitive l
      then ret (PList (map (λ val, PDict [("@value", val)]) l))
      else
        let* tmp :=
          (fix elems (l : list pyval) : M mapper_state (list pyval) :=
             match l with
             | [] => ret []
             | elem :: rest =>
                 let* r := fill_class_map idx ignoreEntityInstantiationList elem false in
                 let* rs := elems rest in
                 ret (r :: rs)
             end) l in
        ret (if isOrderedList then PDict [("@list", PList tmp)] else PList tmp)
  | _ => ret PNone
  end.

(** [__create_jsonld_instances]: the class map starts empty, the counter
    is whatever earlier runs in the process left behind; [classList] is the
    class map's values in insertion order. *)
Definition create_jsonld_instances (idx : label_index)
    (ignoreEntityInstantiationList : list string) (canon : pyval)
    (counter : Z) : result (list pyval * mapper_state) :=
  match fill_class_map idx ignoreEntityInstantiationList canon false
          {| incrementalInt := counter; classMap := [] |} with
  | Ok (_, st) => Ok (map (λ kv, PDict (snd kv)) (classMap st), st)
  | Err e => Err e
  end.

(** ** The namespace pass ([__apply_namespaces]) *)

(** [__set_namespaces]. In [tmp[resolve(key)] = f(value)] Python evaluates
    the right-hand side first. *)
Fixpoint set_namespaces (idx : label_index) (iterable : pyval) {struct iterable}
    : result pyval :=
  match iterable with
  | PDict items =>
      (fix items_loop (its : dict) (tmp : dict) : result pyval :=
         match its with
         | [] => Ok (PDict tmp)
         | (key, value) :: rest =>
             let tmp := if String.eqb key "@id" then dict_set key value tmp else tmp in
             if String.eqb key "@type" then
               let+ r := get_class_by_label idx value value in
               items_loop rest (dict_set key r tmp)
             else
               match value with
               | PList _ =>
                   let+ v := set_namespaces idx value in
                   let+ k := resolve_key idx key key in
                   items_loop rest (dict_set k v tmp)
               | _ =>
                   if String.eqb key "@value" then Ok (PDict [("@value", value)])
                   else if negb (String.eqb key "@id") then
                     let+ k := resolve_key idx key key in
                     items_loop rest (dict_set k value tmp)
                   else items_loop rest tmp
               end
         end) items []
  | PList l =>
      let+ tmp :=
        (fix elems (l : list pyval) : result (list pyval) :=
           match l with
           | [] => Ok []
           | elem :: rest =>
               let+ r := set_namespaces idx elem in
               let+ rs := elems rest in
               Ok (r :: rs)
           end) l in
      Ok (PList tmp)
  | _ => Ok PNone
  end.

(** ** The identity pass ([__apply_uuids]) *)

(** [idMap], and how many times [gen_uuid] has been called in this pass. *)
Record uuid_state : Type := {
  idMap : gmap string string;
  drawn : nat
}.

(** [t[i]] for the tuple [entityContextTuple]. *)
Definition tuple_item (t : list string) (i : nat) : result string :=
  match t !! i with
  | Some x => Ok x
  | None => Err IndexError
  end.

(** [s.replace(pat, "")]: every occurrence of [pat], left to right and not
    overlapping, is dropped; [skip] counts the characters of an occurrence
    still to drop. *)
Fixpoint remove_all_from (pat : string) (skip : nat) (s : string) : string :=
  match s with
  | EmptyString => EmptyString
  | String c rest =>
      match skip with
      | S k => remove_all_from pat k rest
      | O =>
          if negb (String.eqb pat "") && String.prefix pat s
          then remove_all_from pat (String.length pat - 1) rest
          else String c (remove_all_from pat O rest)
      end
  end.

Definition str_remove (pat s : string) : string := remove_all_from pat O s.

(** [parentKey in l], for a parent key that is [None] or a string. *)
Definition parent_in (parentKey : option string) (l : list pyval) : bool :=
  existsb (λ e, match parentKey, e with
                | Some k, PStr s => String.eqb k s
                | None, PNone => true
                | _, _ => false
                end) l.

Section IdentityPass.

(** [gen_uuid n] is the text the [n]-th call of [gen_uuid()] returns. *)
Variable gen_uuid : nat → string.
Variable idx : label_index.
Variable entityContextTuple : list string.
Variable ignoreEntityInstantiationEntityList : list pyval.

Definition draw_uuid : M uuid_state string :=
  λ st, Ok (gen_uuid (drawn st), {| idMap := idMap st; drawn := S (drawn st) |}).

(** [if value not in idMap: ...] for a string [value]. *)
Definition remember (value uuid : string) : M uuid_state unit :=
  λ st,
    match idMap st !! value with
    | Some _ => Ok (tt, st)
    | None =>
        let+ prefix := tuple_item entityContextTuple 0 in
        if String.prefix (prefix +:+ ":") value
        then Ok (tt, {| idMap := <[value := value]> (idMap st); drawn := drawn st |})
        else
          let+ ns := tuple_item entityContextTuple 1 in
          Ok (tt, {| idMap := <[value := ns +:+ uuid]> (idMap st);
                     drawn := drawn st |})
    end.

(** [idMap[value]]. *)
Definition final_id (value : string) : M uuid_state string :=
  λ st, match idMap st !! value with
        | Some f => Ok (f, st)
        | None => Err (KeyError value)
        end.

(** From [uuid = gen_uuid()] to the value stored by
    [iterable[key] = idMap[value]]. A list or dictionary cannot be looked
    up in [idMap]; any other value that is not a string is not in [idMap]
    and has no [startswith]. *)
Definition assign_uuid (value : pyval) : M uuid_state string :=
  let* uuid := draw_uuid in
  match value with
  | PStr v => let* _ := remember v uuid in final_id v
  | PList _ | PDict _ => raise TypeError
  | _ => raise AttributeError
  end.

(** The label written next to a fresh identifier. *)
Definition relabel (value : pyval) (final : string) (cur : dict)
    : result (option string * dict) :=
  let+ labelKey := resolve_key idx "label" rdfs_label in
  if dict_has labelKey cur then
    let labelAppendix := default value (dict_get rdfs_label cur) in
    let+ ns := tuple_item entityContextTuple 1 in
    let shortid := str_take 6 (str_remove ns final) in
    let+ labelKey' := resolve_key idx "label" rdfs_label in
    Ok (Some labelKey',
        dict_set labelKey' (PStr (shortid +:+ " " +:+ py_str labelAppendix)) cur)
  else Ok (None, cur).

(** [__set_uuid] mutates its argument; the embedding returns the mutated
    value. The loop runs over the items of the dictionary while [cur] is
    the dictionary as mutated so far: the keys never change, and the only
    entry rewritten ahead of its turn is the label, whose key is kept in
    [overwritten] and whose new value is a string the loop passes over. *)
Fixpoint set_uuid (iterable : pyval) (parentKey : option string) {struct iterable}
    : M uuid_state pyval :=
  match iterable with
  | PDict items =>
      let* cur :=
        (fix items_loop (its : dict) (cur : dict) (overwritten : option string)
             : M uuid_state dict :=
           match its with
           | [] => ret cur
           | (key, value) :: rest =>
               if String.eqb key "@id"
                  && negb (parent_in parentKey ignoreEntityInstantiationEntityList)
               then
                 let* final := assign_uuid value in
                 let* r := lift (relabel value final (dict_set key (PStr final) cur)) in
                 items_loop rest (snd r)
                   (match fst r with Some k => Some k | None => overwritten end)
               else if match overwritten with
                       | Some k => String.eqb k key
                       | None => false
                       end
               then items_loop rest cur overwritten
               else
                 match value with
                 | PList _ | PDict _ =>
                     let* v := set_uuid value (Some key) in
                     items_loop rest (dict_set key v cur) overwritten
                 | _ => items_loop rest cur overwritten
                 end
           end) items items None in
      ret (PDict cur)
  | PList l =>
      let* tmp :=
        (fix elems (l : list pyval) : M uuid_state (list pyval) :=
           match l with
           | [] => ret []
           | elem :: rest =>
               let* r := set_uuid elem None in
               let* rs := elems rest in
               ret (r :: rs)
           end) l in
      ret (PList tmp)
  | other => ret other
  end.

(** [elem["@context"] = self.context] for every element of [classList]. *)
Fixpoint apply_context (context : dict) (classList : list pyval)
    : result (list pyval) :=
  match classList with
  | [] => Ok []
  | PDict d :: rest =>
      let+ rs := apply_context context rest in
      Ok (PDict (dict_set "@context" (PDict context) d) :: rs)
  | _ :: _ => Err TypeError
  end.

(** [__apply_uuids]; the final [idMap] is returned with the instances. *)
Definition apply_uuids (context : dict) (classList : list pyval)
    : result (list pyval * uuid_state) :=
  match set_uuid (PList classList) None {| idMap := ∅; drawn := O |} with
  | Ok (PList l, st) => let+ l' := apply_context context l in Ok (l', st)
  | Ok (_, _) => Err TypeError
  | Err e => Err e
  end.

End IdentityPass.

(** ** A mapping run ([Mapper.map])

    [environ] is [os.environ] of the process the run happens in and
    [counter] the value of [incrementalInt] when the run starts. [ontos] is
    what parsing the ontologies into the graph comes to, the first thing a
    run does: the exception rdflib raises when one of them cannot be parsed,
    else the rows the two label queries of [__create_labelmaps] return on
    the graph. The run ends with the instances [__serialize_graph] passes to
    rdflib. *)
Record run_output : Type := {
  classList : list pyval;
  final_idMap : gmap string string;
  final_counter : Z
}.

Definition Mapper_map (environ : list (string * string)) (gen_uuid : nat → string)
    (counter : Z) (canon : pyval)
    (ontos : result (list label_row * list label_row))
    (context : dict) (entityContextTuple : list string)
    (ignoreEntityInstantiationList : list string) : result run_output :=
  let+ (label_rows, altlabel_rows) := ontos in
  if negb (length entityContextTuple =? 2)%nat
  then Err (Exception "Entity Context must be a Tuple of 2 columns")
  else
    let+ prefix := tuple_item entityContextTuple 0 in
    let+ iri := tuple_item entityContextTuple 1 in
    let context := dict_set prefix (PStr iri) context in
    let idx := create_labelmaps label_rows altlabel_rows in
    let+ ignoreEntityInstantiationEntityList :=
      create_entity_instation_entity_list idx ignoreEntityInstantiationList in
    let+ (instances, st) :=
      create_jsonld_instances idx ignoreEntityInstantiationList canon counter in
    let+ namespaced := set_namespaces idx (PList instances) in
    match namespaced with
    | PList l =>
        let+ (final, ust) :=
          apply_uuids gen_uuid idx entityContextTuple
            ignoreEntityInstantiationEntityList context l in
        Ok {| classList := final; final_idMap := idMap ust;
              final_counter := incrementalInt st |}
    | _ => Err TypeError
    end.

(** ** Notions the statements below are phrased in *)

(** [label in m] for one label map. *)
Definition label_in (label : pyval) (m : gmap string string) : result bool :=
  match label with
  | PStr s => Ok (bool_decide (is_Some (m !! s)))
  | PList _ | PDict _ => Err TypeError
  | _ => Ok false
  end.

(** The ten label maps in the order the documentation of the resolver
    lists them. *)
Definition label_search_order (idx : label_index) : list (gmap string string) :=
  [ altlabelmaps idx !!! "en"; altlabelmaps idx !!! "en-us";
    altlabelmaps idx !!! "en-gb"; altlabelmaps idx !!! "nolang";
    labelmaps idx !!! "en"; labelmaps idx !!! "en-us";
    labelmaps idx !!! "en-gb"; labelmaps idx !!! "nolang";
    altlabelmaps idx !!! "de"; labelmaps idx !!! "de" ].

(** The identifier of the first map of [order] that contains [s]. *)
Fixpoint first_hit (s : string) (order : list (gmap string string)) : option string :=
  match order with
  | [] => None
  | m :: rest => match m !! s with Some iri => Some iri | None => first_hit s rest end
  end.

(** The languages [__create_labelmaps] always prepares. *)
Definition prepared_languages : list string := ["en"; "en-us"; "en-gb"; "nolang"; "de"].

Definition has_languages (m : gmap string (gmap string string)) : Prop :=
  ∀ l, l ∈ prepared_languages → is_Some (m !! l).

Definition well_formed (idx : label_index) : Prop :=
  has_languages (labelmaps idx) ∧ has_languages (altlabelmaps idx).

(** A deterministic stand-in for [gen_uuid] in worked examples: the [n]-th
    call (counting from zero) returns [n + 1] letters "u". *)
Fixpoint example_uuid (n : nat) : string :=
  match n with
  | O => "u"
  | S k => String "u" (example_uuid k)
  end.

(** The process environment of a run in strict mode. *)
Definition strict_environ : list (string * string) := [("RAISE", "true")].

(** The two loops of [__fill_class_map] on their own. *)
Fixpoint fill_items (idx : label_index) (ignoreEntityInstantiationList : list string)
    (tmpListHandler : pyval) (its : dict) (tmp : dict) : M mapper_state dict :=
  match its with
  | [] => ret tmp
  | (key, value) :: rest =>
      let* tmp' :=
        fill_item (fill_class_map idx ignoreEntityInstantiationList)
          idx ignoreEntityInstantiationList tmpListHandler key value tmp in
      fill_items idx ignoreEntityInstantiationList tmpListHandler rest tmp'
  end.

Fixpoint fill_elems (idx : label_index) (ignoreEntityInstantiationList : list string)
    (l : list pyval) : M mapper_state (list pyval) :=
  match l with
  | [] => ret []
  | elem :: rest =>
      let* r := fill_class_map idx ignoreEntityInstantiationList elem false in
      let* rs := fill_elems idx ignoreEntityInstantiationList rest in
      ret (r :: rs)
  end.

(** The two loops of [__set_uuid] on their own. *)
Fixpoint set_uuid_items (gen_uuid : nat → string) (idx : label_index)
    (entityContextTuple : list string) (ignoreEntityInstantiationEntityList : list pyval)
    (parentKey : option string) (its : dict) (cur : dict)
    (overwritten : option string) : M uuid_state dict :=
  match its with
  | [] => ret cur
  | (key, value) :: rest =>
      let continue := set_uuid_items gen_uuid idx entityContextTuple
                        ignoreEntityInstantiationEntityList parentKey rest in
      if String.eqb key "@id"
         && negb (parent_in parentKey ignoreEntityInstantiationEntityList)
      then
        let* final := assign_uuid gen_uuid entityContextTuple value in
        let* r := lift (relabel idx entityContextTuple value final
                          (dict_set key (PStr final) cur)) in
        continue (snd r) (match fst r with Some k => Some k | None => overwritten end)
      else if match overwritten with
              | Some k => String.eqb k key
              | None => false
              end
      then continue cur overwritten
      else
        match value with
        | PList _ | PDict _ =>
            let* v := set_uuid gen_uuid idx entityContextTuple
                        ignoreEntityInstantiationEntityList value (Some key) in
            continue (dict_set key v cur) overwritten
        | _ => continue cur overwritten
        end
  end.

Fixpoint set_uuid_elems (gen_uuid : nat → string) (idx : label_index)
    (entityContextTuple : list string) (ignoreEntityInstantiationEntityList : list pyval)
    (l : list pyval) : M uuid_state (list pyval) :=
  match l with
  | [] => ret []
  | elem :: rest =>
      let* r := set_uuid gen_uuid idx entityContextTuple
                  ignoreEntityInstantiationEntityList elem None in
      let* rs := set_uuid_elems gen_uuid idx entityContextTuple
                   ignoreEntityInstantiationEntityList rest in
      ret (r :: rs)
  end.

(** Induction on Python values, with the hypothesis for every element of a
    list and every value of a dictionary. *)
Section PyvalInduction.
Variable P : pyval → Prop.
Hypothesis HNone : P PNone.
Hypothesis HBool : ∀ b, P (PBool b).
Hypothesis HInt : ∀ z, P (PInt z).
Hypothesis HFloat : ∀ r, P (PFloat r).
Hypothesis HStr : ∀ s, P (PStr s).
Hypothesis HList : ∀ l, Forall P l → P (PList l).
Hypothesis HDict : ∀ d, Forall (λ kv, P (snd kv)) d → P (PDict d).

Fixpoint pyval_ind (v : pyval) : P v :=
  match v with
  | PNone => HNone
  | PBool b => HBool b
  | PInt z => HInt z
  | PFloat r => HFloat r
  | PStr s => HStr s
  | PList l =>
      HList l ((fix all (l : list pyval) : Forall P l :=
                  match l with
                  | [] => @List.Forall_nil _ P
                  | x :: rest => @List.Forall_cons _ P x rest (pyval_ind x) (all rest)
                  end) l)
  | PDict d =>
      HDict d ((fix all (d : dict) : Forall (λ kv, P (snd kv)) d :=
                  match d with
                  | [] => List.Forall_nil _
                  | kv :: rest =>
                      @List.Forall_cons _ (λ kv, P (snd kv)) kv rest
                        (pyval_ind (snd kv)) (all rest)
                  end) d)
  end.
End PyvalInduction.

(** [value] is neither a list nor a dictionary. *)
Definition is_scalar (value : pyval) : bool := negb (is_list value) && negb (is_dict value).

(** [startswith(prefix + ":")]. *)
Definition in_target_namespace (prefix value : string) : bool :=
  String.prefix (prefix +:+ ":") value.

(** What [__get_class_by_label(value, value)] comes to for a value that is
    neither a list nor a dictionary: the identifier of the first map that
    holds it when it is a label; else the value itself when it is truthy;
    else nothing, the resolver raising. *)
Definition resolved_scalar (idx : label_index) (value : pyval) : option pyval :=
  match value with
  | PStr s =>
      match first_hit s (label_search_order idx) with
      | Some iri => Some (PStr iri)
      | None => if py_truthy value then Some value else None
      end
  | _ => if py_truthy value then Some value else None
  end.

(** Two tables of ranges without a common point. *)
Definition ranges_apart (a b : list (N * N)) : bool :=
  forallb (λ r, forallb (λ q, (snd r <? fst q)%N || (snd q <? fst r)%N) b) a.


(** What the identity pass maintains of [idMap]: an identifier of the
    target namespace is mapped to itself, any other to the namespace
    followed by a token drawn earlier, and no two of the latter share a
    final identifier. *)
Definition idMap_inv (gen_uuid : nat → string) (prefix ns : string)
    (st : uuid_state) : Prop :=
  (∀ k v, idMap st !! k = Some v → in_target_namespace prefix k = true → v = k) ∧
  (∀ k v, idMap st !! k = Some v → in_target_namespace prefix k = false →
     ∃ n, (n < drawn st)%nat ∧ v = ns +:+ gen_uuid n) ∧
  (∀ k1 k2 v, idMap st !! k1 = Some v → idMap st !! k2 = Some v →
     in_target_namespace prefix k1 = false → in_target_namespace prefix k2 = false →
     k1 = k2).

(** ** Notions of the further properties *)

(** The tag a query row is filed under. *)
Definition row_language (row : label_row) : string :=
  if String.eqb (lang row) "" then "nolang" else lang row.

(** [maps[language][label]] when both keys are there. *)
Definition lookup_label (maps : gmap string (gmap string string))
    (language label : string) : option string :=
  match maps !! language with
  | Some m => m !! label
  | None => None
  end.

(** The class of the last of [rows] that carries [label] in [language]. *)
Definition last_row (language label : string) (rows : list label_row) : option string :=
  foldl (λ acc row,
           if decide (row_language row = language ∧ lbl row = label)
           then Some (cls row) else acc)
        None rows.

Fixpoint first_some (candidates : list (option string)) : option string :=
  match candidates with
  | [] => None
  | Some x :: _ => Some x
  | None :: rest => first_some rest
  end.

(** Resolution read off the query rows: the last row for the label in
    each language, the languages in the order of the resolver. *)
Definition resolve_from_rows (label_rows altlabel_rows : list label_row)
    (s : string) : option string :=
  first_some
    [ last_row "en" s altlabel_rows; last_row "en-us" s altlabel_rows;
      last_row "en-gb" s altlabel_rows; last_row "nolang" s altlabel_rows;
      last_row "en" s label_rows; last_row "en-us" s label_rows;
      last_row "en-gb" s label_rows; last_row "nolang" s label_rows;
      last_row "de" s altlabel_rows; last_row "de" s label_rows ].

(** What a string label resolves to when its own text is the default. *)
Definition resolved_or_self (idx : label_index) (s : string) : pyval :=
  match first_hit s (label_search_order idx) with
  | Some iri => PStr iri
  | None => PStr s
  end.

(** The keys of the canonical JSON that steer the traversal and are never
    stored. *)
Definition reserved_key (k : string) : bool :=
  String.eqb k "hasIdentifier" || String.eqb k "listHandler".

(** A well-formed descriptor: no key twice, and the keys "@type" and "@id"
    among them. *)
Definition descriptor_ok (d : dict) : Prop :=
  NoDup (dict_keys d) ∧ "@type" ∈ dict_keys d ∧ "@id" ∈ dict_keys d.

(** A well-formed entity table: no identifier twice, every descriptor
    well-formed. *)
Definition class_map_ok (cm : list (string * dict)) : Prop :=
  NoDup (dict_keys cm) ∧ Forall (λ kv, descriptor_ok (snd kv)) cm.

(** The literal wrapper of a primitive. *)
Definition value_wrapper (val : pyval) : pyval := PDict [("@value", val)].

(** The key an entry is stored under by the namespace pass: "@id" and
    "@type" as they are, any other key as the resolver renames it. *)
Definition namespaced_key (idx : label_index) (key : string) : string :=
  if String.eqb key "@id" || String.eqb key "@type" then key
  else match first_hit key (label_search_order idx) with
       | Some iri => iri
       | None => key
       end.

(** An entry the namespace pass handles without descending: the identity
    reference, a type list, or any other named entry whose value is not a
    list. *)
Definition plain_entry (kv : string * pyval) : Prop :=
  fst kv ≠ "" ∧ fst kv ≠ "@value" ∧
  if String.eqb (fst kv) "@type" then is_list (snd kv) = true
  else is_list (snd kv) = false.

(** What the identity pass does to an instance, as far as its shape goes:
    a dictionary comes back with its keys and the namespace context under
    "@context". *)
Definition contextualised (context : dict) (instance out : pyval) : Prop :=
  ∃ d d', instance = PDict d ∧ out = PDict d' ∧
          dict_get "@context" d' = Some (PDict context) ∧
          dict_keys d' = dict_keys (dict_set "@context" (PDict context) d).

(** ** The label index always holds the prepared languages *)

Lemma add_row_is_Some m row l : is_Some (m !! l) → is_Some (add_row m row !! l).
Proof.
  intros Hl. unfold add_row.
  set (lg := if String.eqb (lang row) "" then "nolang" else lang row).
  rewrite lookup_alter. destruct (m !! lg) eqn:E.
  - case_decide; subst; [rewrite E; eauto | done].
  - case_decide.
    + subst. rewrite lookup_insert_eq. eauto.
    + rewrite lookup_insert_ne by done. done.
Qed.

Lemma foldl_add_row_is_Some rows : ∀ m l,
  is_Some (m !! l) → is_Some (foldl add_row m rows !! l).
Proof.
  induction rows as [|row rows IH]; intros m l Hl; simpl; [done|].
  apply IH. by apply add_row_is_Some.
Qed.

Lemma prepared_maps_languages : has_languages prepared_maps.
Proof.
  intros l Hl. unfold prepared_languages in Hl.
  repeat (apply elem_of_cons in Hl as [-> | Hl]; [by vm_compute; eauto|]).
  by apply elem_of_nil in Hl.
Qed.

Lemma create_labelmaps_well_formed label_rows altlabel_rows :
  well_formed (create_labelmaps label_rows altlabel_rows).
Proof.
  split; intros l Hl; simpl; apply foldl_add_row_is_Some;
    by apply prepared_maps_languages.
Qed.

(** ** The resolver, as a search through [label_search_order] *)

Lemma if_label_in_str maps lg s otherwise m :
  maps !! lg = Some m →
  if_label_in maps lg (PStr s) otherwise =
  match m !! s with Some iri => Ok (PStr iri) | None => otherwise end.
Proof. intros E. unfold if_label_in. by rewrite E. Qed.

Lemma lookup_total_Some (maps : gmap string (gmap string string)) lg m :
  maps !! lg = Some m → maps !!! lg = m.
Proof. intros E. by rewrite lookup_total_alt, E. Qed.

Lemma has_languages_lookup m l :
  has_languages m → l ∈ prepared_languages → m !! l = Some (m !!! l).
Proof.
  intros H Hl. destruct (H l Hl) as [d E]. by rewrite (lookup_total_Some _ _ _ E).
Qed.

Ltac language := unfold prepared_languages; set_solver.

Lemma get_class_by_label_str idx s default :
  well_formed idx →
  get_class_by_label idx (PStr s) default =
  match first_hit s (label_search_order idx) with
  | Some iri => Ok (PStr iri)
  | None =>
      if py_truthy default then Ok default
      else Err (Exception ("Error finding class for label " +:+ s))
  end.
Proof.
  intros [Hl Ha]. unfold get_class_by_label, label_search_order. simpl is_list. cbv iota.
  repeat match goal with
  | |- context [if_label_in ?maps ?lg _ _] =>
      first [ rewrite (if_label_in_str maps lg s _ (maps !!! lg))
                by (apply has_languages_lookup; [assumption | language]) ]
  end.
  simpl first_hit.
  repeat match goal with
  | |- context [match ?m !! s with _ => _ end] => destruct (m !! s); [reflexivity|]
  end.
  simpl. by destruct (py_truthy default).
Qed.

Lemma if_label_in_scalar maps lg label otherwise :
  is_Some (maps !! lg) →
  match label with PStr _ | PList _ | PDict _ => False | _ => True end →
  if_label_in maps lg label otherwise = otherwise.
Proof. intros [m E] H. unfold if_label_in. rewrite E. by destruct label. Qed.

Lemma if_label_in_dict maps lg d otherwise :
  is_Some (maps !! lg) → if_label_in maps lg (PDict d) otherwise = Err TypeError.
Proof. intros [m E]. unfold if_label_in. by rewrite E. Qed.

Lemma get_class_by_label_scalar idx label default :
  well_formed idx →
  match label with PStr _ | PList _ | PDict _ => False | _ => True end →
  get_class_by_label idx label default =
  if py_truthy default then Ok default
  else Err (Exception ("Error finding class for label " +:+ py_str label)).
Proof.
  intros [Hl Ha] H. unfold get_class_by_label.
  replace (is_list label) with false by (by destruct label).
  repeat rewrite if_label_in_scalar; try done;
    try (first [apply Hl | apply Ha]; language).
  by destruct (py_truthy default).
Qed.

Lemma first_hit_at s order : ∀ (i : nat) m iri,
  order !! i = Some m → m !! s = Some iri →
  (∀ (j : nat) m', (j < i)%nat → order !! j = Some m' → m' !! s = None) →
  first_hit s order = Some iri.
Proof.
  induction order as [|m0 order IH]; intros i m iri Hi Hm Hbefore; [done|].
  destruct i as [|i]; simpl in *.
  - injection Hi as ->. by rewrite Hm.
  - rewrite (Hbefore O m0) by (done || lia).
    apply (IH i m iri); [done..|].
    intros j m' Hj Hj'. apply (Hbefore (S j) m'); [lia | done].
Qed.

Lemma first_hit_none s order :
  Forall (λ m, label_in (PStr s) m = Ok false) order → first_hit s order = None.
Proof.
  induction 1 as [|m order Hm _ IH]; [done|]. simpl.
  unfold label_in in Hm. destruct (m !! s) eqn:E; [|done].
  exfalso. cbn in Hm. discriminate Hm.
Qed.

(** ** Claims about the label resolver *)

(** C1: with the environment variable RAISE set to "true", a label found in
    no label map should abort the run even when a default is supplied. The
    source documents this but never reads the environment: a run is the
    same whatever the environment holds, and evaluated in strict mode on a
    canonical document whose labels "Foo" and "bar" are unknown to an empty
    ontology, it completes, the unknown labels coming out as the defaults
    that were passed along. *)
Theorem strict_mode_run_completes :
  (∀ environ gen_uuid counter canon ontos context
     entityContextTuple ignoreEntityInstantiationList,
     Mapper_map environ gen_uuid counter canon ontos context
       entityContextTuple ignoreEntityInstantiationList =
     Mapper_map strict_environ gen_uuid counter canon ontos context
       entityContextTuple ignoreEntityInstantiationList) ∧
  get_class_by_label (create_labelmaps [] []) (PStr "Foo") (PStr "Foo") = Ok (PStr "Foo") ∧
  match Mapper_map strict_environ example_uuid 0
          (PDict [("Foo", PDict [("bar", PInt 1)])]) (Ok ([], [])) []
          ["entity"; "http://example.org/entity/"] [] with
  | Ok out =>
      classList out =
      [PDict [("@type", PList [PStr "default"]);
              ("@id", PStr "http://example.org/entity/u");
              (rdfs_label, PStr "u Foo");
              ("bar", PInt 1);
              ("@context", PDict [("entity", PStr "http://example.org/entity/")])]]
  | Err _ => False
  end.
Proof.
  split; [reflexivity|]. split.
  - by vm_compute.
  - vm_compute. reflexivity.
Qed.

(** C5, as stated, fails: a label that is not a string is returned as the
    default at once only when it is a list. JSON [null] as label with the
    default [None] is searched like any other value, found nowhere, and
    raises. *)
Lemma resolver_none_label_counterexample :
  is_list PNone = false ∧
  get_class_by_label (create_labelmaps [] []) PNone PNone
    = Err (Exception "Error finding class for label None") ∧
  get_class_by_label (create_labelmaps [] []) PNone PNone ≠ Ok PNone.
Proof. split; [done|]. split; [by vm_compute|]. by vm_compute. Qed.

(** C5 (amended): on every label index built by [create_labelmaps], a label
    that is a list yields the default immediately; a string label is
    searched in the ten maps in the order alt-labels(en), alt-labels(en-us),
    alt-labels(en-gb), alt-labels(nolang), labels(en), labels(en-us),
    labels(en-gb), labels(nolang), alt-labels(de), labels(de), and the result
    is the identifier in the first map that contains it; any other scalar
    label is in no map and falls to the no-match rule; a dictionary as label
    is a [TypeError]. *)
Theorem resolver_search_order label_rows altlabel_rows :
  let idx := create_labelmaps label_rows altlabel_rows in
  (∀ l default, get_class_by_label idx (PList l) default = Ok default) ∧
  (∀ s default (i : nat) m iri,
      label_search_order idx !! i = Some m →
      m !! s = Some iri →
      (∀ (j : nat) m', (j < i)%nat →
         label_search_order idx !! j = Some m' → m' !! s = None) →
      get_class_by_label idx (PStr s) default = Ok (PStr iri)) ∧
  (∀ label default,
      match label with PStr _ | PList _ | PDict _ => False | _ => True end →
      get_class_by_label idx label default =
      if py_truthy default then Ok default
      else Err (Exception ("Error finding class for label " +:+ py_str label))) ∧
  (∀ d default, get_class_by_label idx (PDict d) default = Err TypeError).
Proof.
  intros idx.
  assert (Hwf : well_formed idx) by apply create_labelmaps_well_formed.
  split; [done|]. split; [|split].
  - intros s default i m iri Hi Hm Hbefore.
    rewrite get_class_by_label_str by done.
    by rewrite (first_hit_at s _ i m iri Hi Hm Hbefore).
  - intros label default Hlabel. by apply get_class_by_label_scalar.
  - intros d default. unfold get_class_by_label. simpl is_list. cbv iota.
    apply if_label_in_dict. destruct Hwf as [_ Ha]. apply Ha. language.
Qed.

(** A label that is only a German primary label is found in the last map
    searched. *)
Lemma resolver_search_order_witness :
  let idx := create_labelmaps [ {| lbl := "Stahl"; cls := "ex:Steel"; lang := "de" |} ] [] in
  label_search_order idx !! 9%nat = Some ({["Stahl" := "ex:Steel"]} : gmap string string) ∧
  get_class_by_label idx (PStr "Stahl") PNone = Ok (PStr "ex:Steel").
Proof.
  intros idx. split; [by vm_compute|].
  refine (proj1 (proj2 (resolver_search_order
            [ {| lbl := "Stahl"; cls := "ex:Steel"; lang := "de" |} ] []))
            "Stahl" PNone 9%nat {["Stahl" := "ex:Steel"]} "ex:Steel" _ _ _).
  - by vm_compute.
  - by vm_compute.
  - intros j m' Hj Hm'.
    do 9 (destruct j as [|j]; [vm_compute in Hm'; injection Hm' as <-; by vm_compute|]).
    lia.
Defined.

(** C6: when no label map contains the label (each of the ten membership
    tests is false), a truthy default is returned unchanged and nothing is
    raised; with a falsy or absent ([None]) default the call raises an error
    whose message names the label. *)
Theorem resolver_no_match label_rows altlabel_rows label default :
  let idx := create_labelmaps label_rows altlabel_rows in
  Forall (λ m, label_in label m = Ok false) (label_search_order idx) →
  (py_truthy default = true → get_class_by_label idx label default = Ok default) ∧
  (py_truthy default = false →
     get_class_by_label idx label default =
     Err (Exception ("Error finding class for label " +:+ py_str label))).
Proof.
  intros idx Hno.
  assert (Hwf : well_formed idx) by apply create_labelmaps_well_formed.
  assert (Hres : get_class_by_label idx label default =
                 if py_truthy default then Ok default
                 else Err (Exception ("Error finding class for label " +:+ py_str label))).
  { destruct label; try (by apply get_class_by_label_scalar).
    - rewrite get_class_by_label_str by done. by rewrite first_hit_none.
    - apply Forall_cons in Hno as [H _]. discriminate H.
    - apply Forall_cons in Hno as [H _]. discriminate H. }
  rewrite Hres. split; intros ->; reflexivity.
Qed.

Lemma resolver_no_match_witness :
  Forall (λ m, label_in (PStr "Foo") m = Ok false)
    (label_search_order (create_labelmaps [] [])) ∧
  get_class_by_label (create_labelmaps [] []) (PStr "Foo") (PStr "Foo") = Ok (PStr "Foo") ∧
  get_class_by_label (create_labelmaps [] []) (PStr "Foo") PNone
    = Err (Exception "Error finding class for label Foo").
Proof.
  assert (H : Forall (λ m, label_in (PStr "Foo") m = Ok false)
                (label_search_order (create_labelmaps [] []))).
  { repeat constructor. }
  split; [exact H|]. split.
  - apply (proj1 (resolver_no_match [] [] (PStr "Foo") (PStr "Foo") H)). reflexivity.
  - apply (proj2 (resolver_no_match [] [] (PStr "Foo") PNone H)). reflexivity.
Defined.


(** ** The loops of the two recursive passes, unfolded *)

Lemma fill_items_eq idx ign h its tmp st :
  (fix items_loop (its tmp : dict) {struct its} : M mapper_state dict :=
     match its with
     | [] => ret tmp
     | (key, value) :: rest =>
         let* tmp' := fill_item (fill_class_map idx ign) idx ign h key value tmp
         in items_loop rest tmp'
     end) its tmp st = fill_items idx ign h its tmp st.
Proof.
  induction its as [|[key value] rest IH] in tmp, st |- *; [done|].
  simpl. unfold bind.
  destruct (fill_item _ _ _ _ _ _ _ st) as [[tmp' st']|e]; [|done]. apply IH.
Qed.

Lemma fill_class_map_dict idx ign items o st :
  fill_class_map idx ign (PDict items) o st =
  (let* tmp := fill_items idx ign (default (PList []) (dict_get "listHandler" items)) items []
   in ret (PDict tmp)) st.
Proof. unfold bind. rewrite <- fill_items_eq. reflexivity. Qed.

Lemma fill_elems_eq idx ign l st :
  (fix elems (l : list pyval) : M mapper_state (list pyval) :=
     match l with
     | [] => ret []
     | elem :: rest =>
         let* r := fill_class_map idx ign elem false in
         let* rs := elems rest in
         ret (r :: rs)
     end) l st = fill_elems idx ign l st.
Proof.
  induction l as [|elem rest IH] in st |- *; [done|].
  simpl. unfold bind.
  destruct (fill_class_map idx ign elem false st) as [[r st']|e]; [|done].
  by rewrite IH.
Qed.

Lemma fill_class_map_list idx ign l o st :
  fill_class_map idx ign (PList l) o st =
  if forallb is_primitive l
  then Ok (PList (map (λ val, PDict [("@value", val)]) l), st)
  else (let* tmp := fill_elems idx ign l in
        ret (if o then PDict [("@list", PList tmp)] else PList tmp)) st.
Proof.
  unfold bind. rewrite <- fill_elems_eq. simpl.
  by destruct (forallb is_primitive l).
Qed.

(** ** Dictionaries *)

Section Dictionaries.
Context {V : Type}.
Implicit Types (d e : list (string * V)) (k : string) (v : V).

Lemma dict_get_set_eq k v d : dict_get k (dict_set k v d) = Some v.
Proof.
  induction d as [|[k' v'] d IH]; simpl.
  - by rewrite String.eqb_refl.
  - destruct (String.eqb k k') eqn:E; simpl; by rewrite E.
Qed.

Lemma dict_get_set_ne k k' v d : k ≠ k' → dict_get k' (dict_set k v d) = dict_get k' d.
Proof.
  intros Hne. induction d as [|[k0 v0] d IH]; simpl.
  - destruct (String.eqb k' k) eqn:E; [|done].
    apply String.eqb_eq in E. congruence.
  - destruct (String.eqb k k0) eqn:E; simpl.
    + apply String.eqb_eq in E as ->.
      destruct (String.eqb k' k0) eqn:E'; [|done].
      apply String.eqb_eq in E'. congruence.
    + by rewrite IH.
Qed.

Lemma dict_get_Some_keys k v d : dict_get k d = Some v → k ∈ dict_keys d.
Proof.
  induction d as [|[k' v'] d IH]; simpl; [done|].
  destruct (String.eqb k k') eqn:E.
  - apply String.eqb_eq in E as ->. intros _. apply elem_of_cons. by left.
  - intros H. apply elem_of_cons. right. by apply IH.
Qed.

Lemma dict_keys_get k d : k ∈ dict_keys d → is_Some (dict_get k d).
Proof.
  induction d as [|[k' v'] d IH]; simpl.
  - intros H. by apply elem_of_nil in H.
  - intros H. destruct (String.eqb k k') eqn:E; [eauto|].
    apply elem_of_cons in H as [->|H]; [|by apply IH].
    by rewrite String.eqb_refl in E.
Qed.

Lemma dict_get_None_keys k d : dict_get k d = None → k ∉ dict_keys d.
Proof.
  intros H Hin. apply dict_keys_get in Hin as [v Hv]. congruence.
Qed.

Lemma dict_keys_set k v d :
  dict_keys (dict_set k v d) =
  if dict_has k d then dict_keys d else dict_keys d ++ [k].
Proof.
  unfold dict_has. induction d as [|[k' v'] d IH]; simpl; [done|].
  destruct (String.eqb k k') eqn:E; simpl; [done|].
  rewrite IH. by destruct (dict_get k d).
Qed.

Lemma dict_keys_set_subseteq k v d : dict_keys d ⊆ dict_keys (dict_set k v d).
Proof.
  rewrite dict_keys_set. destruct (dict_has k d); [done|].
  intros x Hx. apply elem_of_app. by left.
Qed.

Lemma dict_keys_set_elem k v d : k ∈ dict_keys (dict_set k v d).
Proof. apply (dict_get_Some_keys k v). apply dict_get_set_eq. Qed.

Lemma dict_set_NoDup k v d : NoDup (dict_keys d) → NoDup (dict_keys (dict_set k v d)).
Proof.
  intros Hnd. rewrite dict_keys_set. unfold dict_has.
  destruct (dict_get k d) eqn:E; [done|].
  apply NoDup_app. split; [done|]. split.
  - intros x Hx Hk. apply list_elem_of_singleton in Hk as ->.
    by apply dict_get_None_keys in E.
  - apply NoDup_singleton.
Qed.

Lemma dict_len_set k v d :
  dict_len (dict_set k v d) = if dict_has k d then dict_len d else dict_len d + 1.
Proof.
  unfold dict_len. rewrite <- (length_map fst (dict_set k v d)), <- (length_map fst d).
  fold (dict_keys (dict_set k v d)). fold (dict_keys d). rewrite dict_keys_set.
  destruct (dict_has k d); [done|]. rewrite length_app. simpl. lia.
Qed.

(** [d.update(e)] keeps every key of [d] and gains every key of [e]. *)
Lemma dict_update_keys_l d e : dict_keys d ⊆ dict_keys (dict_update d e).
Proof.
  unfold dict_update. induction e as [|[k v] e IH] in d |- *; simpl; [done|].
  etrans; [apply (dict_keys_set_subseteq k v)|]. apply IH.
Qed.

Lemma dict_update_keys_r d e : dict_keys e ⊆ dict_keys (dict_update d e).
Proof.
  unfold dict_update. induction e as [|[k v] e IH] in d |- *; simpl.
  - intros x Hx. by apply elem_of_nil in Hx.
  - intros x Hx. apply elem_of_cons in Hx as [->|Hx].
    + apply (dict_update_keys_l (dict_set k v d) e). apply dict_keys_set_elem.
    + by apply IH.
Qed.



Lemma dict_update_NoDup d e : NoDup (dict_keys d) → NoDup (dict_keys (dict_update d e)).
Proof.
  unfold dict_update. induction e as [|[k v] e IH] in d |- *; simpl; [done|].
  intros Hnd. apply IH. by apply dict_set_NoDup.
Qed.
End Dictionaries.

Lemma copy_sub_keys sub ldCls : dict_keys ldCls ⊆ dict_keys (copy_sub sub ldCls).
Proof.
  unfold copy_sub. induction sub as [|[k v] sub IH] in ldCls |- *; simpl; [done|].
  destruct (String.eqb k "hasIdentifier"); [apply IH|].
  etrans; [apply (dict_keys_set_subseteq k v)|]. apply IH.
Qed.

Lemma copy_sub_NoDup sub ldCls :
  NoDup (dict_keys ldCls) → NoDup (dict_keys (copy_sub sub ldCls)).
Proof.
  unfold copy_sub. induction sub as [|[k v] sub IH] in ldCls |- *; simpl; [done|].
  intros Hnd. destruct (String.eqb k "hasIdentifier"); apply IH; [done|].
  by apply dict_set_NoDup.
Qed.



(** ** One step of the structural mapper *)

(** Case analysis along a run that is known to end in [Ok]. *)
Ltac run_step :=
  match goal with
  | H : context [match ?x with _ => _ end] |- _ =>
      lazymatch type of H with
      | _ = Ok _ => destruct x eqn:?; try discriminate H
      end
  end.

Ltac run_in H :=
  unfold bind, lift, ret, raise, get_incremental_int, add_to_class_map in H;
  repeat run_step;
  simplify_eq.

Lemma resolve_with_default idx key dflt :
  well_formed idx → dflt ≠ "" →
  ∃ r, get_class_by_label idx (PStr key) (PStr dflt) = Ok (PStr r).
Proof.
  intros Hwf Hd. rewrite get_class_by_label_str by done.
  destruct (first_hit key (label_search_order idx)) as [iri|]; [eauto|].
  simpl. destruct (String.eqb dflt "") eqn:E; [by apply String.eqb_eq in E|].
  simpl. eauto.
Qed.


Lemma ranges_apart_sound a b c :
  ranges_apart a b = true → in_ranges a c = true → in_ranges b c = false.
Proof.
  unfold ranges_apart, in_ranges. intros Hap Ha.
  apply existsb_exists in Ha as (r & Hr & Hrc).
  apply andb_true_iff in Hrc as [Hlo Hhi].
  apply N.leb_le in Hlo, Hhi.
  destruct (existsb _ b) eqn:Hb; [|done]. exfalso.
  apply existsb_exists in Hb as (q & Hq & Hqc).
  apply andb_true_iff in Hqc as [Hlo' Hhi'].
  apply N.leb_le in Hlo', Hhi'.
  rewrite forallb_forall in Hap. specialize (Hap r Hr).
  rewrite forallb_forall in Hap. specialize (Hap q Hq).
  apply orb_true_iff in Hap as [H|H]; apply N.ltb_lt in H; lia.
Qed.

(** No character is both uppercase and lowercase. *)
Lemma upper_not_lower c : is_upper c = true → is_lower c = false.
Proof.
  apply ranges_apart_sound. vm_compute. reflexivity.
Qed.

(** A string that is not empty has a first character. *)
Lemma codepoints_from_nonempty s : ∀ need acc,
  s ≠ "" ∨ need ≠ O → codepoints_from need acc s ≠ [].
Proof.
  induction s as [|b rest IH]; intros need acc H.
  - destruct need; [by destruct H|done].
  - cbn [codepoints_from]. destruct need as [|k].
    + repeat (match goal with |- context [if ?x then _ else _] => destruct x end;
              try done); apply IH; by right.
    + destruct (is_continuation b); [|done].
      destruct k; [done|]. apply IH. by right.
Qed.

Lemma first_char_nonempty key : key ≠ "" → ∃ c, first_char key = Ok c.
Proof.
  intros H. unfold first_char, codepoints.
  destruct (codepoints_from 0 0 key) eqn:E; [|eauto].
  exfalso. revert E. apply codepoints_from_nonempty. by left.
Qed.

Lemma first_char_empty : first_char "" = Err IndexError.
Proof. reflexivity. Qed.

Lemma fill_item_shape self idx ign h key value tmp st tmp' st' :
  fill_item self idx ign h key value tmp st = Ok (tmp', st') →
  tmp' = tmp ∨ (∃ v, tmp' = dict_set key v tmp) ∨
  (∃ c d identifier, value = PDict d ∧ first_char key = Ok c ∧ is_upper c = true ∧
     tmp' = dict_set "@id" (PStr identifier) tmp).
Proof.
  intros H. unfold fill_item, entity_identifier in H. run_in H; eauto 10.
Qed.

Lemma fill_item_NoDup self idx ign h key value tmp st tmp' st' :
  fill_item self idx ign h key value tmp st = Ok (tmp', st') →
  NoDup (dict_keys tmp) → NoDup (dict_keys tmp').
Proof.
  intros H Hnd. apply fill_item_shape in H as [->|[[v ->]|(c & d & i & _ & _ & _ & ->)]];
    [done|by apply dict_set_NoDup..].
Qed.

Lemma fill_items_NoDup idx ign h its tmp st tmp' st' :
  fill_items idx ign h its tmp st = Ok (tmp', st') →
  NoDup (dict_keys tmp) → NoDup (dict_keys tmp').
Proof.
  induction its as [|[key value] rest IH] in tmp, st |- *; simpl; intros H Hnd.
  - by injection H as <- <-.
  - unfold bind in H.
    destruct (fill_item _ _ _ _ _ _ _ st) as [[tmp1 st1]|e] eqn:E; [|done].
    eapply IH; [done|]. by eapply fill_item_NoDup.
Qed.

(** What [__fill_class_map] returns for a dictionary is a dictionary. *)
Lemma fill_class_map_dict_result idx ign items o st r st' :
  fill_class_map idx ign (PDict items) o st = Ok (r, st') →
  ∃ tmp, r = PDict tmp ∧ NoDup (dict_keys tmp) ∧
    fill_items idx ign (default (PList []) (dict_get "listHandler" items)) items [] st
      = Ok (tmp, st').
Proof.
  rewrite fill_class_map_dict. unfold bind. intros H.
  destruct (fill_items _ _ _ _ _ st) as [[tmp st1]|e] eqn:E; [|done].
  injection H as <- <-. exists tmp. split; [done|]. split; [|done].
  eapply fill_items_NoDup; [done|]. apply NoDup_nil_2.
Qed.

(** Every change of the mapper's state is one of two: the counter goes up
    by one, or a descriptor is offered to the class map. A relation that is
    a preorder and admits the two holds between the states before and after
    any traversal. *)
Section StateSteps.
Variable R : mapper_state → mapper_state → Prop.
Hypothesis R_refl : ∀ st, R st st.
Hypothesis R_trans : ∀ st1 st2 st3, R st1 st2 → R st2 st3 → R st1 st3.
Hypothesis R_counter : ∀ st,
  R st {| incrementalInt := incrementalInt st + 1; classMap := classMap st |}.
Hypothesis R_add : ∀ st identifier ldCls,
  R st {| incrementalInt := incrementalInt st;
          classMap := class_map_add identifier ldCls (classMap st) |}.

Lemma entity_identifier_steps key d st identifier st' :
  entity_identifier key d st = Ok (identifier, st') → R st st'.
Proof. intros H. unfold entity_identifier in H. run_in H; eauto. Qed.

Lemma fill_item_steps self idx ign h key value tmp st tmp' st' :
  (∀ o st r st', self value o st = Ok (r, st') → R st st') →
  fill_item self idx ign h key value tmp st = Ok (tmp', st') → R st st'.
Proof.
  intros Hself H. unfold fill_item in H. run_in H; eauto;
    try (eapply R_trans; [by eapply entity_identifier_steps|]; eauto).
Qed.

Lemma fill_class_map_steps idx ign v : ∀ o st r st',
  fill_class_map idx ign v o st = Ok (r, st') → R st st'.
Proof.
  induction v as [|b|z|f|s|l IH|d IH] using pyval_ind; intros o st r st' H;
    try (injection H as <- <-; apply R_refl).
  - rewrite fill_class_map_list in H.
    destruct (forallb is_primitive l); [injection H as <- <-; apply R_refl|].
    unfold bind in H.
    destruct (fill_elems idx ign l st) as [[tmp st1]|e] eqn:E; [|done].
    injection H as <- <-. clear o.
    induction IH as [|x l Hx _ IHl] in st, tmp, st1, E |- *; simpl in E.
    + injection E as <- <-. apply R_refl.
    + unfold bind in E.
      destruct (fill_class_map idx ign x false st) as [[r1 s1]|e] eqn:E1; [|done].
      destruct (fill_elems idx ign l s1) as [[rs s2]|e] eqn:E2; [|done].
      injection E as <- <-. eapply R_trans; [by eapply Hx | by eapply IHl].
  - apply fill_class_map_dict_result in H as (tmp & -> & _ & H).
    set (h := default (PList []) (dict_get "listHandler" d)) in H. clearbody h.
    revert H. generalize (@nil (string * pyval)). intros tmp0 H.
    induction IH as [|[key value] d Hv _ IHd] in st, tmp0, H |- *; simpl in H.
    + injection H as <- <-. apply R_refl.
    + unfold bind in H.
      destruct (fill_item _ _ _ _ _ _ _ st) as [[tmp1 st1]|e] eqn:E; [|done].
      eapply R_trans; [|by eapply IHd].
      eapply fill_item_steps; [|done]. intros o0 s0 r0 s0'. apply Hv.
Qed.
End StateSteps.

(** ** Claims about the structural mapper *)

Lemma fill_item_prelude self idx ign h key c value tmp st :
  well_formed idx → first_char key = Ok c →
  String.eqb key "listHandler" = false → String.eqb key "hasIdentifier" = false →
  ∃ cls, get_class_by_label idx (PStr key) (PStr "default") = Ok cls ∧
  fill_item self idx ign h key value tmp st =
  match value with
  | PDict d =>
      if is_upper c then
        (let* identifier := entity_identifier key d in
         let* _ :=
           if forallb (λ k, String.eqb k "hasIdentifier") (dict_keys d)
           then ret tt
           else
             let* types := lift (entity_types idx cls d) in
             let* ldCls := lift (new_ldCls idx key identifier types) in
             let* subClassMap := self value false in
             match subClassMap with
             | PDict sub => add_to_class_map identifier (copy_sub sub ldCls)
             | _ => raise AttributeError
             end
         in
         ret (dict_set "@id" (PStr identifier) tmp)) st
      else if is_lower c then
        (let* n := get_incremental_int in
         ret (dict_set key (PDict [("@id", PStr (key +:+ "_sub_" +:+ string_of_Z n))]) tmp)) st
      else Ok (tmp, st)
  | PList _ =>
      (let* ordered := lift (py_contains_str key h) in
       let* r := self value ordered in
       ret (dict_set key r tmp)) st
  | _ =>
      if str_in key ign then
        (let* r := lift (get_class_by_label idx value value) in
         ret (dict_set key (PDict [("@id", r)]) tmp)) st
      else Ok (dict_set key value tmp, st)
  end.
Proof.
  intros Hwf Hc Hl Hh.
  destruct (resolve_with_default idx key "default" Hwf) as [r Hr]; [done|].
  exists (PStr r). split; [done|].
  unfold fill_item. rewrite Hl. unfold bind at 1, lift at 1. rewrite Hr.
  unfold bind at 1, lift at 1. rewrite Hc. rewrite Hh.
  destruct value; try reflexivity; try (by destruct (str_in key ign)).
  destruct (is_upper c); [done|]. by destruct (is_lower c).
Qed.

(** C2, as stated, fails: the object under a lowercase key is not descended
    into. Its key "street" and value "Main" occur nowhere in what the mapper
    produces for the document below; only a reference to the synthesized
    sub-identifier is left. *)
Lemma lowercase_object_content_dropped :
  match create_jsonld_instances (create_labelmaps [] []) []
          (PDict [("Person",
             PDict [("name", PStr "Ada");
                    ("address", PDict [("street", PStr "Main")])])]) 0 with
  | Ok (instances, st) =>
      instances =
        [PDict [("@type", PList [PStr "default"]); ("@id", PStr "Person_1");
                (rdfs_label, PStr "Person"); ("name", PStr "Ada");
                ("address", PDict [("@id", PStr "address_sub_2")])]] ∧
      String.index 0 "street" (py_repr (PList instances)) = None ∧
      String.index 0 "Main" (py_repr (PList instances)) = None
  | Err _ => False
  end.
Proof. vm_compute. done. Qed.

(** C2 (amended): for a key other than [hasIdentifier] and [listHandler]
    that starts with a lowercase letter and whose value is an object, the
    mapper draws the next counter value [n], records the reference
    [{"@id": key_sub_n}] under the key at that tree position and leaves the
    entity table alone; it does not descend into the object (the outcome is
    the same whatever the object holds and whatever the recursive call
    would do). *)
Theorem lowercase_object_is_reference_only self idx ign h key c inner tmp st :
  well_formed idx →
  first_char key = Ok c → is_lower c = true →
  key ≠ "hasIdentifier" → key ≠ "listHandler" →
  fill_item self idx ign h key (PDict inner) tmp st =
  Ok (dict_set key
        (PDict [("@id", PStr (key +:+ "_sub_" +:+ string_of_Z (incrementalInt st + 1)))])
        tmp,
      {| incrementalInt := incrementalInt st + 1; classMap := classMap st |}).
Proof.
  intros Hwf Hc Hlow Hh Hl.
  apply String.eqb_neq in Hh, Hl.
  destruct (fill_item_prelude self idx ign h key c (PDict inner) tmp st Hwf Hc Hl Hh)
    as (cls & _ & ->).
  destruct (is_upper c) eqn:Hu; [by rewrite (upper_not_lower c Hu) in Hlow|].
  by rewrite Hlow.
Qed.

Lemma lowercase_object_is_reference_only_witness :
  fill_item (λ _ _, raise TypeError) (create_labelmaps [] []) [] (PList [])
    "address" (PDict [("street", PStr "Main")]) []
    {| incrementalInt := 0; classMap := [] |} =
  Ok ([("address", PDict [("@id", PStr "address_sub_1")])],
      {| incrementalInt := 1; classMap := [] |}) ∧
  fill_item (λ _ _, raise TypeError) (create_labelmaps [] []) [] (PList [])
    "ölstand" (PDict [("wert", PInt 3)]) []
    {| incrementalInt := 1; classMap := [] |} =
  Ok ([("ölstand", PDict [("@id", PStr "ölstand_sub_2")])],
      {| incrementalInt := 2; classMap := [] |}).
Proof.
  split.
  - apply (lowercase_object_is_reference_only (λ _ _, raise TypeError)
             (create_labelmaps [] []) [] (PList []) "address" 97%N
             [("street", PStr "Main")] [] {| incrementalInt := 0; classMap := [] |}).
    + apply create_labelmaps_well_formed.
    + reflexivity.
    + reflexivity.
    + discriminate.
    + discriminate.
  - apply (lowercase_object_is_reference_only (λ _ _, raise TypeError)
             (create_labelmaps [] []) [] (PList []) "ölstand" 246%N
             [("wert", PInt 3)] [] {| incrementalInt := 1; classMap := [] |}).
    + apply create_labelmaps_well_formed.
    + reflexivity.
    + reflexivity.
    + discriminate.
    + discriminate.
Defined.

Lemma given_identifier_None value :
  dict_get "hasIdentifier" value = None →
  given_identifier value = Err (KeyError "hasIdentifier").
Proof. intros H. unfold given_identifier. by rewrite H. Qed.

Lemma entity_identifier_counter key value st e :
  given_identifier value = Err e →
  entity_identifier key value st =
  Ok (key +:+ "_" +:+ string_of_Z (incrementalInt st + 1),
      {| incrementalInt := incrementalInt st + 1; classMap := classMap st |}).
Proof. intros H. unfold entity_identifier. by rewrite H. Qed.



Lemma str_in_elem key l : str_in key l = true → key ∈ l.
Proof.
  unfold str_in. induction l as [|x l IH]; simpl; [done|].
  intros H. apply orb_true_iff in H as [H|H].
  - apply String.eqb_eq in H as ->. by left.
  - right. by apply IH.
Qed.

Lemma entity_list_elem idx ign entityList key :
  create_entity_instation_entity_list idx ign = Ok entityList →
  key ∈ ign →
  ∃ r, get_class_by_label idx (PStr key) (PStr key) = Ok r ∧ r ∈ entityList.
Proof.
  induction ign as [|elem rest IH] in entityList |- *; simpl; intros H Hin.
  - by apply elem_of_nil in Hin.
  - unfold rbind in H.
    destruct (get_class_by_label idx (PStr elem) (PStr elem)) as [r|] eqn:E; [|done].
    destruct (create_entity_instation_entity_list idx rest) as [rs|] eqn:E'; [|done].
    injection H as <-. apply elem_of_cons in Hin as [->|Hin].
    + exists r. split; [done|]. by left.
    + destruct (IH rs eq_refl Hin) as (r' & Hr' & Hin'). exists r'. split; [done|]. by right.
Qed.

Lemma parent_in_elem k entityList :
  PStr k ∈ entityList → parent_in (Some k) entityList = true.
Proof.
  unfold parent_in. induction entityList as [|x l IH]; intros H.
  - by apply elem_of_nil in H.
  - simpl. apply elem_of_cons in H as [<-|H].
    + by rewrite String.eqb_refl.
    + rewrite (IH H). by rewrite orb_true_r.
Qed.

Lemma resolve_key_Ok idx key dflt rk :
  resolve_key idx key dflt = Ok rk →
  get_class_by_label idx (PStr key) (PStr dflt) = Ok (PStr rk).
Proof.
  unfold resolve_key, rbind, expect_str. intros H.
  destruct (get_class_by_label idx (PStr key) (PStr dflt)) as [[]|]; by simplify_eq.
Qed.

(** Resolving a scalar with itself as default gives a scalar. *)
Lemma get_class_by_label_scalar_result idx value r :
  well_formed idx → is_scalar value = true →
  get_class_by_label idx value value = Ok r → is_scalar r = true.
Proof.
  intros Hwf Hs H. destruct value; try done.
  all: try (rewrite get_class_by_label_scalar in H by done;
            destruct (py_truthy _); by simplify_eq).
  rewrite get_class_by_label_str in H by done.
  destruct (first_hit _ _); [by simplify_eq|].
  destruct (py_truthy _); by simplify_eq.
Qed.

Lemma get_class_by_label_resolved_scalar idx value :
  well_formed idx → is_scalar value = true →
  get_class_by_label idx value value =
  match resolved_scalar idx value with
  | Some r => Ok r
  | None => Err (Exception ("Error finding class for label " +:+ py_str value))
  end.
Proof.
  intros Hwf Hs. destruct value; try done.
  all: try (rewrite get_class_by_label_scalar by done; unfold resolved_scalar;
            by destruct (py_truthy _)).
  rewrite get_class_by_label_str by done. unfold resolved_scalar.
  destruct (first_hit _ _); [done|]. by destruct (py_truthy _).
Qed.

Lemma resolve_key_self idx key :
  well_formed idx → key ≠ "" → ∃ rk, resolve_key idx key key = Ok rk.
Proof.
  intros Hwf Hk. destruct (resolve_with_default idx key key Hwf Hk) as [r Hr].
  exists r. unfold resolve_key, rbind. by rewrite Hr.
Qed.

(** C9, as stated, fails: under a key of the ignore list a scalar that is
    no label and is falsy ([null], [false], zero, the empty string) is not
    wrapped. The resolver, called with the value as its own default, finds
    it in no map and raises, and the run ends with that error. *)
Lemma ignore_list_null_raises :
  let idx := create_labelmaps [] [] in
  let canon := PDict [("Temp", PDict [("amount", PInt 5); ("unit", PNone)])] in
  str_in "unit" ["unit"] = true ∧
  is_scalar PNone = true ∧
  fill_item (fill_class_map idx ["unit"]) idx ["unit"] (PList []) "unit" PNone
    [("amount", PInt 5)] {| incrementalInt := 1; classMap := [] |}
    = Err (Exception "Error finding class for label None") ∧
  create_jsonld_instances idx ["unit"] canon 0
    = Err (Exception "Error finding class for label None") ∧
  Mapper_map [] example_uuid 0 canon (Ok ([], [])) []
    ["entity"; "http://example.org/entity/"] ["unit"]
    = Err (Exception "Error finding class for label None").
Proof. intros idx canon. repeat split; by vm_compute. Qed.

(** C9 (amended): for a key other than [hasIdentifier] with a scalar value.
    Under the directive key [listHandler] nothing is stored, and the empty
    key aborts the run with an [IndexError]. For any other key: when the key
    is in the ignore list and the value is a label of the ontology or is
    truthy, the value resolves to [r] (the identifier of the first map
    holding it, else the value itself), the step stores the reference
    [{"@id": r}] under the key instead of the literal, the namespace pass
    moves that reference, untouched, under the resolved key, and the
    identity pass, reaching it under that key, returns it as it is without
    calling [gen_uuid] or touching [idMap]; when the key is in the ignore
    list and the value is no label and falsy, the step raises "Error finding
    class for label ..." and nothing is stored. When the key is not in the
    ignore list the step stores the scalar itself. *)
Theorem ignore_list_scalar self idx ign h key value tmp st :
  well_formed idx →
  is_scalar value = true →
  key ≠ "hasIdentifier" →
  (key = "listHandler" → fill_item self idx ign h key value tmp st = Ok (tmp, st)) ∧
  (key = "" → fill_item self idx ign h key value tmp st = Err IndexError) ∧
  (key ≠ "listHandler" → key ≠ "" →
     (str_in key ign = true →
        (∀ r, resolved_scalar idx value = Some r →
           get_class_by_label idx value value = Ok r ∧
           fill_item self idx ign h key value tmp st
             = Ok (dict_set key (PDict [("@id", r)]) tmp, st) ∧
           ∃ rk, resolve_key idx key key = Ok rk ∧
             (key ≠ "@id" → key ≠ "@type" → key ≠ "@value" →
                set_namespaces idx (PDict [(key, PDict [("@id", r)])])
                  = Ok (PDict [(rk, PDict [("@id", r)])])) ∧
             ∀ gen_uuid entityContextTuple entityList ust,
               create_entity_instation_entity_list idx ign = Ok entityList →
               set_uuid gen_uuid idx entityContextTuple entityList
                 (PDict [("@id", r)]) (Some rk) ust
                 = Ok (PDict [("@id", r)], ust)) ∧
        (resolved_scalar idx value = None →
           fill_item self idx ign h key value tmp st
             = Err (Exception ("Error finding class for label " +:+ py_str value)))) ∧
     (str_in key ign = false →
        fill_item self idx ign h key value tmp st = Ok (dict_set key value tmp, st))).
Proof.
  intros Hwf Hs Hh. split; [|split].
  - intros ->. reflexivity.
  - intros ->. unfold fill_item. cbn [String.eqb]. unfold bind at 1, lift at 1.
    destruct (resolve_with_default idx "" "default" Hwf) as [r ->]; [done|].
    reflexivity.
  - intros Hl Hne.
    apply String.eqb_neq in Hh, Hl.
    destruct (first_char_nonempty key Hne) as [c Hc].
    destruct (fill_item_prelude self idx ign h key c value tmp st Hwf Hc Hl Hh)
      as (cls & _ & Hstep).
    pose proof (get_class_by_label_resolved_scalar idx value Hwf Hs) as Hres.
    split.
    + intros Hin. split.
      * intros r Hr. rewrite Hr in Hres. split; [done|]. split.
        { rewrite Hstep. destruct value; try done; rewrite Hin; unfold bind, lift, ret;
            by rewrite Hres. }
        destruct (resolve_key_self idx key Hwf Hne) as [rk Hrk].
        exists rk. split; [done|]. split.
        { intros H1 H2 H3. apply String.eqb_neq in H1, H2, H3.
          simpl. rewrite H1, H2, H3. simpl. unfold rbind. by rewrite Hrk. }
        intros gen_uuid ect entityList ust Hlist.
        destruct (entity_list_elem idx ign entityList key Hlist (str_in_elem _ _ Hin))
          as (r' & Hr' & Hin').
        rewrite (resolve_key_Ok _ _ _ _ Hrk) in Hr'. injection Hr' as <-.
        pose proof (get_class_by_label_scalar_result idx value r Hwf Hs Hres) as Hsr.
        simpl. rewrite (parent_in_elem rk entityList Hin'). simpl.
        destruct r; done.
      * intros Hnone. rewrite Hnone in Hres.
        rewrite Hstep. destruct value; try done; rewrite Hin; unfold bind, lift;
          by rewrite Hres.
    + intros Hout. rewrite Hstep. destruct value; try done; by rewrite Hout.
Qed.

Lemma ignore_list_scalar_witness :
  let idx := create_labelmaps [ {| lbl := "Celsius"; cls := "ex:Celsius"; lang := "en" |} ] [] in
  let st := {| incrementalInt := 0; classMap := [] |} in
  fill_item (λ _ _, raise TypeError) idx ["unit"] (PList []) "unit" (PStr "Celsius") [] st
    = Ok ([("unit", PDict [("@id", PStr "ex:Celsius")])], st) ∧
  fill_item (λ _ _, raise TypeError) idx ["unit"] (PList []) "unit" (PInt 0) [] st
    = Err (Exception "Error finding class for label 0") ∧
  fill_item (λ _ _, raise TypeError) idx ["unit"] (PList []) "value" (PInt 5) [] st
    = Ok ([("value", PInt 5)], st).
Proof.
  intros idx st.
  assert (Hwf : well_formed idx) by apply create_labelmaps_well_formed.
  split; [|split].
  - apply (proj1 (proj1 (proj2 (proj2 (ignore_list_scalar (λ _ _, raise TypeError) idx
             ["unit"] (PList []) "unit" (PStr "Celsius") [] st Hwf eq_refl
             ltac:(discriminate))) ltac:(discriminate) ltac:(discriminate)) eq_refl)
             (PStr "ex:Celsius")).
    by vm_compute.
  - apply (proj2 (proj1 (proj2 (proj2 (ignore_list_scalar (λ _ _, raise TypeError) idx
             ["unit"] (PList []) "unit" (PInt 0) [] st Hwf eq_refl
             ltac:(discriminate))) ltac:(discriminate) ltac:(discriminate)) eq_refl)).
    by vm_compute.
  - apply (proj2 (proj2 (proj2 (ignore_list_scalar (λ _ _, raise TypeError) idx
             ["unit"] (PList []) "value" (PInt 5) [] st Hwf eq_refl
             ltac:(discriminate))) ltac:(discriminate) ltac:(discriminate))).
    reflexivity.
Defined.

(** ** The entity table *)

Lemma class_map_add_other identifier ldCls cm k :
  k ≠ identifier →
  dict_get k (class_map_add identifier ldCls cm) = dict_get k cm.
Proof.
  intros Hne. unfold class_map_add.
  destruct (dict_get identifier cm) as [old|].
  - destruct (dict_len ldCls >? dict_len old); [|done].
    by apply dict_get_set_ne.
  - by apply dict_get_set_ne.
Qed.

Lemma class_map_add_new identifier ldCls cm :
  dict_get identifier cm = None →
  dict_get identifier (class_map_add identifier ldCls cm) = Some ldCls.
Proof. intros H. unfold class_map_add. rewrite H. apply dict_get_set_eq. Qed.

Lemma class_map_add_longer identifier ldCls cm old :
  dict_get identifier cm = Some old → dict_len ldCls > dict_len old →
  dict_get identifier (class_map_add identifier ldCls cm) = Some (dict_update old ldCls).
Proof.
  intros H Hlen. unfold class_map_add. rewrite H.
  destruct (dict_len ldCls >? dict_len old) eqn:E; [apply dict_get_set_eq|].
  rewrite Z.gtb_ltb in E. apply Z.ltb_ge in E. lia.
Qed.

Lemma class_map_add_not_longer identifier ldCls cm old :
  dict_get identifier cm = Some old → dict_len ldCls ≤ dict_len old →
  class_map_add identifier ldCls cm = cm.
Proof.
  intros H Hlen. unfold class_map_add. rewrite H.
  destruct (dict_len ldCls >? dict_len old) eqn:E; [|done].
  rewrite Z.gtb_ltb in E. apply Z.ltb_lt in E. lia.
Qed.

(** Offering a descriptor to the table never takes a key away from any
    descriptor already stored. *)
Lemma class_map_add_keeps_keys identifier ldCls cm k d :
  dict_get k cm = Some d →
  ∃ d', dict_get k (class_map_add identifier ldCls cm) = Some d' ∧
        dict_keys d ⊆ dict_keys d'.
Proof.
  intros Hk. destruct (decide (k = identifier)) as [->|Hne].
  - destruct (Z_le_gt_dec (dict_len ldCls) (dict_len d)) as [Hle|Hgt].
    + rewrite (class_map_add_not_longer _ _ _ _ Hk Hle). eauto.
    + rewrite (class_map_add_longer _ _ _ _ Hk Hgt).
      eexists. split; [done|]. apply dict_update_keys_l.
  - rewrite class_map_add_other by done. eauto.
Qed.

(** C3, as stated, fails: two occurrences of the interim identifier
    "Person_a" with descriptors of equal size. The second occurrence, which
    on its own yields a descriptor with the key "age", is discarded by the
    size test; the descriptor that ends up in the entity table has no key
    "age". *)
Lemma later_occurrence_keys_dropped :
  let idx := create_labelmaps [] [] in
  let first := PDict [("Person", PDict [("hasIdentifier", PStr "a"); ("name", PStr "x")])] in
  let second := PDict [("Person", PDict [("hasIdentifier", PStr "a"); ("age", PInt 5)])] in
  (∃ d st, create_jsonld_instances idx [] second 0 = Ok ([PDict d], st) ∧
           dict_keys d = ["@type"; "@id"; rdfs_label; "age"] ∧
           dict_get "@id" d = Some (PStr "Person_a") ∧
           dict_has "age" d = true) ∧
  (∃ d st, create_jsonld_instances idx [] (PList [first; second]) 0 = Ok ([PDict d], st) ∧
           dict_keys d = ["@type"; "@id"; rdfs_label; "name"] ∧
           dict_get "@id" d = Some (PStr "Person_a") ∧
           dict_has "age" d = false).
Proof.
  intros idx first second. split.
  - eexists _, _. split; [by vm_compute|]. repeat split; by vm_compute.
  - eexists _, _. split; [by vm_compute|]. repeat split; by vm_compute.
Qed.

(** C3 (amended): a descriptor offered to the entity table under an
    identifier not yet present is stored as it is; under an identifier
    already present it is merged into the stored descriptor only when it
    has strictly more keys, and the merged descriptor then has every key of
    both; otherwise it is discarded and the table is unchanged, so its keys
    need not be in the final descriptor. No traversal ever removes a key
    from a stored descriptor: the key set of the descriptor stored under an
    identifier only grows. *)
Theorem class_map_merge_is_additive idx ign :
  (∀ identifier ldCls cm,
     dict_get identifier cm = None →
     dict_get identifier (class_map_add identifier ldCls cm) = Some ldCls) ∧
  (∀ identifier ldCls cm old,
     dict_get identifier cm = Some old → dict_len ldCls > dict_len old →
     ∃ merged,
       dict_get identifier (class_map_add identifier ldCls cm) = Some merged ∧
       dict_keys old ⊆ dict_keys merged ∧ dict_keys ldCls ⊆ dict_keys merged) ∧
  (∀ identifier ldCls cm old,
     dict_get identifier cm = Some old → dict_len ldCls ≤ dict_len old →
     class_map_add identifier ldCls cm = cm) ∧
  (∀ v o st r st',
     fill_class_map idx ign v o st = Ok (r, st') →
     ∀ identifier d,
       dict_get identifier (classMap st) = Some d →
       ∃ d', dict_get identifier (classMap st') = Some d' ∧
             dict_keys d ⊆ dict_keys d').
Proof.
  split; [|split; [|split]].
  - apply class_map_add_new.
  - intros identifier ldCls cm old Hold Hlen.
    rewrite (class_map_add_longer _ _ _ _ Hold Hlen). eexists. split; [done|].
    split; [apply dict_update_keys_l | apply dict_update_keys_r].
  - apply class_map_add_not_longer.
  - intros v o st r st'.
    apply (fill_class_map_steps
             (λ s s', ∀ identifier d, dict_get identifier (classMap s) = Some d →
                ∃ d', dict_get identifier (classMap s') = Some d' ∧
                      dict_keys d ⊆ dict_keys d')).
    + eauto.
    + intros s1 s2 s3 H12 H23 identifier d Hd.
      destruct (H12 identifier d Hd) as (d2 & Hd2 & Hsub2).
      destruct (H23 identifier d2 Hd2) as (d3 & Hd3 & Hsub3).
      exists d3. split; [done|]. by etrans.
    + simpl. eauto.
    + simpl. intros s identifier ldCls k d Hk. by apply class_map_add_keeps_keys.
Qed.

Lemma class_map_merge_is_additive_witness :
  let idx := create_labelmaps [] [] in
  let st := {| incrementalInt := 0;
               classMap := [("Person_a", [("@id", PStr "Person_a"); ("name", PStr "x")])] |} in
  let canon := PDict [("Person", PDict [("hasIdentifier", PStr "a"); ("name", PStr "y");
                                      ("age", PInt 5)])] in
  ∃ r st', fill_class_map idx [] canon false st = Ok (r, st') ∧
    ∃ d', dict_get "Person_a" (classMap st') = Some d' ∧
          dict_keys [("@id", PStr "Person_a"); ("name", PStr "x")] ⊆ dict_keys d'.
Proof.
  intros idx st canon.
  destruct (fill_class_map idx [] canon false st) as [[r st']|e] eqn:E;
    [|by vm_compute in E].
  exists r, st'. split; [done|].
  apply (proj2 (proj2 (proj2 (class_map_merge_is_additive idx []))) canon false st r st' E
           "Person_a" [("@id", PStr "Person_a"); ("name", PStr "x")]).
  reflexivity.
Defined.

(** ** Uppercase keys inside an entity *)




Lemma new_ldCls_NoDup idx key identifier types ldCls :
  new_ldCls idx key identifier types = Ok ldCls → NoDup (dict_keys ldCls).
Proof.
  unfold new_ldCls. set (d0 := [_; _]).
  assert (Hd0 : NoDup (dict_keys d0)).
  { apply NoDup_cons. split; [|apply NoDup_singleton].
    intros H. apply list_elem_of_singleton in H. discriminate H. }
  clearbody d0. unfold rbind.
  destruct (resolve_key idx "label" rdfs_label); [|done].
  intros H. injection H as <-. by apply dict_set_NoDup.
Qed.






(** C7: the type list is the resolved key followed by the resolved,
    non-blank additional types, and a type that cannot be resolved should
    come out as its own label text. For the additional types it does; the
    key is resolved with the fixed default ["default"], and the namespace
    pass, handed the whole list as label, returns it as it is. With an empty
    ontology the entity below, keyed "Foo" with the additional type "Bar",
    ends up with the types "default" and "Bar". *)
Theorem unresolved_key_is_typed_default :
  (∀ idx types, get_class_by_label idx (PList types) (PList types) = Ok (PList types)) ∧
  get_class_by_label (create_labelmaps [] []) (PStr "Foo") (PStr "default")
    = Ok (PStr "default") ∧
  entity_types (create_labelmaps [] []) (PStr "default")
    [("name", PStr "x"); ("additionalTypes", PList [PStr "Bar"; PStr " "; PStr ""])]
    = Ok [PStr "default"; PStr "Bar"] ∧
  match Mapper_map [] example_uuid 0
          (PDict [("Foo", PDict [("name", PStr "x");
                                 ("additionalTypes", PList [PStr "Bar"; PStr " "; PStr ""])])])
          (Ok ([], [])) [] ["entity"; "http://example.org/entity/"] [] with
  | Ok out =>
      ∃ d, classList out = [PDict d] ∧
           dict_get "@type" d = Some (PList [PStr "default"; PStr "Bar"])
  | Err _ => False
  end.
Proof.
  split; [done|]. split; [by vm_compute|]. split; [by vm_compute|].
  vm_compute. eexists. split; reflexivity.
Qed.

(** ** The identity pass *)

Section IdentitySteps.
Variable gen_uuid : nat → string.
Variable idx : label_index.
Variable ect : list string.
Variable ignL : list pyval.

Lemma set_uuid_items_eq parentKey its cur ow st :
  (fix items_loop (its : dict) (cur : dict) (overwritten : option string)
       : M uuid_state dict :=
     match its with
     | [] => ret cur
     | (key, value) :: rest =>
         if String.eqb key "@id" && negb (parent_in parentKey ignL)
         then
           let* final := assign_uuid gen_uuid ect value in
           let* r := lift (relabel idx ect value final (dict_set key (PStr final) cur)) in
           items_loop rest (snd r)
             (match fst r with Some k => Some k | None => overwritten end)
         else if match overwritten with
                 | Some k => String.eqb k key
                 | None => false
                 end
         then items_loop rest cur overwritten
         else
           match value with
           | PList _ | PDict _ =>
               let* v := set_uuid gen_uuid idx ect ignL value (Some key) in
               items_loop rest (dict_set key v cur) overwritten
           | _ => items_loop rest cur overwritten
           end
     end) its cur ow st
  = set_uuid_items gen_uuid idx ect ignL parentKey its cur ow st.
Proof.
  induction its as [|[key value] rest IH] in cur, ow, st |- *; [done|].
  simpl. destruct (String.eqb key "@id" && negb (parent_in parentKey ignL)).
  - unfold bind.
    destruct (assign_uuid gen_uuid ect value st) as [[final st1]|]; [|done].
    destruct (lift _ st1) as [[r st2]|]; [|done]. apply IH.
  - destruct (match ow with Some k => String.eqb k key | None => false end); [apply IH|].
    destruct value; try apply IH; unfold bind;
      destruct (set_uuid _ _ _ _ _ _ st) as [[v st1]|]; try done; apply IH.
Qed.

Lemma set_uuid_dict items parentKey st :
  set_uuid gen_uuid idx ect ignL (PDict items) parentKey st =
  (let* cur := set_uuid_items gen_uuid idx ect ignL parentKey items items None in
   ret (PDict cur)) st.
Proof. unfold bind. rewrite <- set_uuid_items_eq. reflexivity. Qed.

Lemma set_uuid_elems_eq l st :
  (fix elems (l : list pyval) : M uuid_state (list pyval) :=
     match l with
     | [] => ret []
     | elem :: rest =>
         let* r := set_uuid gen_uuid idx ect ignL elem None in
         let* rs := elems rest in
         ret (r :: rs)
     end) l st = set_uuid_elems gen_uuid idx ect ignL l st.
Proof.
  induction l as [|elem rest IH] in st |- *; [done|].
  simpl. unfold bind.
  destruct (set_uuid gen_uuid idx ect ignL elem None st) as [[r st1]|]; [|done].
  by rewrite IH.
Qed.

Lemma set_uuid_list l parentKey st :
  set_uuid gen_uuid idx ect ignL (PList l) parentKey st =
  (let* tmp := set_uuid_elems gen_uuid idx ect ignL l in ret (PList tmp)) st.
Proof. unfold bind. rewrite <- set_uuid_elems_eq. reflexivity. Qed.

(** The only change of state in the identity pass is the one made by
    [assign_uuid]; a preorder it respects holds over any traversal. *)
Variable R : uuid_state → uuid_state → Prop.
Hypothesis R_refl : ∀ st, R st st.
Hypothesis R_trans : ∀ st1 st2 st3, R st1 st2 → R st2 st3 → R st1 st3.
Hypothesis R_assign : ∀ value st final st',
  assign_uuid gen_uuid ect value st = Ok (final, st') → R st st'.

Lemma set_uuid_items_steps parentKey its : ∀ cur ow st cur' st',
  Forall (λ kv, ∀ parentKey st r st',
            set_uuid gen_uuid idx ect ignL (snd kv) parentKey st = Ok (r, st') →
            R st st') its →
  set_uuid_items gen_uuid idx ect ignL parentKey its cur ow st = Ok (cur', st') →
  R st st'.
Proof.
  induction its as [|[key value] rest IH]; intros cur ow st cur' st' Hall H;
    simpl in H.
  - injection H as <- <-. apply R_refl.
  - apply Forall_cons in Hall as [Hv Hall]. simpl in Hv.
    destruct (String.eqb key "@id" && negb (parent_in parentKey ignL)).
    + unfold bind in H.
      destruct (assign_uuid gen_uuid ect value st) as [[final st1]|] eqn:E; [|done].
      unfold lift in H. destruct (relabel _ _ _ _ _) as [r|]; [|done].
      eapply R_trans; [by eapply R_assign | by eapply IH].
    + destruct (match ow with Some k => String.eqb k key | None => false end);
        [by eapply IH|].
      destruct value; try (by eapply IH); unfold bind in H;
        destruct (set_uuid _ _ _ _ _ _ st) as [[v st1]|] eqn:E; try done;
        (eapply R_trans; [by eapply Hv | by eapply IH]).
Qed.

Lemma set_uuid_steps x : ∀ parentKey st r st',
  set_uuid gen_uuid idx ect ignL x parentKey st = Ok (r, st') → R st st'.
Proof.
  induction x as [|b|z|f|s|l IH|d IH] using pyval_ind; intros parentKey st r st' H;
    try (injection H as <- <-; apply R_refl).
  - rewrite set_uuid_list in H. unfold bind in H.
    destruct (set_uuid_elems _ _ _ _ l st) as [[tmp st1]|] eqn:E; [|done].
    injection H as <- <-.
    induction IH as [|x l Hx _ IHl] in st, tmp, st1, E |- *; simpl in E.
    + injection E as <- <-. apply R_refl.
    + unfold bind in E.
      destruct (set_uuid _ _ _ _ x None st) as [[r1 s1]|] eqn:E1; [|done].
      destruct (set_uuid_elems _ _ _ _ l s1) as [[rs s2]|] eqn:E2; [|done].
      injection E as <- <-. eapply R_trans; [by eapply Hx | by eapply IHl].
  - rewrite set_uuid_dict in H. unfold bind in H.
    destruct (set_uuid_items _ _ _ _ _ d d None st) as [[cur st1]|] eqn:E; [|done].
    injection H as <- <-. by eapply set_uuid_items_steps.
Qed.
End IdentitySteps.

Lemma append_inv_head (p a b : string) : p +:+ a = p +:+ b → a = b.
Proof. induction p as [|c p IH]; simpl; [done|]. intros [= H]. by apply IH. Qed.

Lemma example_uuid_inj n m : example_uuid n = example_uuid m → n = m.
Proof.
  induction n as [|n IH] in m |- *; destruct m as [|m]; simpl; try done.
  - destruct m; done.
  - destruct n; done.
  - intros [= H]. f_equal. by apply IH.
Qed.

(** One encounter of an interim identifier. *)
Lemma assign_uuid_str gen_uuid prefix ns v st :
  assign_uuid gen_uuid [prefix; ns] (PStr v) st =
  match idMap st !! v with
  | Some final => Ok (final, {| idMap := idMap st; drawn := S (drawn st) |})
  | None =>
      let final := if in_target_namespace prefix v then v
                   else ns +:+ gen_uuid (drawn st) in
      Ok (final, {| idMap := <[v := final]> (idMap st); drawn := S (drawn st) |})
  end.
Proof.
  unfold assign_uuid, bind, draw_uuid, remember, final_id, in_target_namespace. simpl.
  destruct (idMap st !! v) as [final|] eqn:E; simpl.
  - by rewrite E.
  - destruct (String.prefix (prefix +:+ ":") v); simpl; by rewrite lookup_insert_eq.
Qed.

Lemma assign_uuid_inv gen_uuid prefix ns value st final st' :
  (∀ n m, gen_uuid n = gen_uuid m → n = m) →
  assign_uuid gen_uuid [prefix; ns] value st = Ok (final, st') →
  (idMap_inv gen_uuid prefix ns st → idMap_inv gen_uuid prefix ns st') ∧
  idMap st ⊆ idMap st'.
Proof.
  intros Hinj H. destruct value as [| | | |v| |]; try (by cbv in H).
  rewrite assign_uuid_str in H. destruct (idMap st !! v) as [f|] eqn:E.
  - injection H as <- <-. simpl. split; [|done].
    intros (H1 & H2 & H3). split; [done|]. split; [|done].
    intros k w Hk Hns. destruct (H2 k w Hk Hns) as (n & Hn & ->).
    exists n. simpl. split; [lia|done].
  - simpl in H. injection H as <- <-. simpl. split; [|by apply insert_subseteq].
    intros (H1 & H2 & H3). split; [|split]; simpl.
    + intros k w Hk Hns. destruct (decide (v = k)) as [->|Hne].
      * rewrite lookup_insert_eq in Hk. injection Hk as <-. by rewrite Hns.
      * rewrite lookup_insert_ne in Hk by done. by apply H1.
    + intros k w Hk Hns. destruct (decide (v = k)) as [->|Hne].
      * rewrite lookup_insert_eq in Hk. injection Hk as <-. rewrite Hns.
        exists (drawn st). split; [lia|done].
      * rewrite lookup_insert_ne in Hk by done.
        destruct (H2 k w Hk Hns) as (n & Hn & ->). exists n. split; [lia|done].
    + assert (Hfresh : ∀ k w, idMap st !! k = Some w →
                in_target_namespace prefix k = false →
                w ≠ ns +:+ gen_uuid (drawn st)).
      { intros k w Hk Hns ->. destruct (H2 k _ Hk Hns) as (n & Hn & Heq).
        apply append_inv_head, Hinj in Heq. lia. }
      intros k1 k2 w Hk1 Hk2 Hns1 Hns2.
      destruct (decide (k1 = v)) as [->|Hne1]; destruct (decide (k2 = v)) as [->|Hne2];
        try done.
      * rewrite lookup_insert_eq in Hk1. rewrite lookup_insert_ne in Hk2 by done.
        rewrite Hns1 in Hk1. injection Hk1 as <-. by destruct (Hfresh k2 _ Hk2 Hns2).
      * rewrite lookup_insert_eq in Hk2. rewrite lookup_insert_ne in Hk1 by done.
        rewrite Hns2 in Hk2. injection Hk2 as <-. by destruct (Hfresh k1 _ Hk1 Hns1).
      * rewrite lookup_insert_ne in Hk1, Hk2 by done. by eapply H3.
Qed.

Lemma set_uuid_inv gen_uuid idx prefix ns ignL x parentKey st r st' :
  (∀ n m, gen_uuid n = gen_uuid m → n = m) →
  set_uuid gen_uuid idx [prefix; ns] ignL x parentKey st = Ok (r, st') →
  (idMap_inv gen_uuid prefix ns st → idMap_inv gen_uuid prefix ns st') ∧
  idMap st ⊆ idMap st'.
Proof.
  intros Hinj.
  apply (set_uuid_steps gen_uuid idx [prefix; ns] ignL
           (λ s s', (idMap_inv gen_uuid prefix ns s → idMap_inv gen_uuid prefix ns s') ∧
                    idMap s ⊆ idMap s')).
  - done.
  - intros s1 s2 s3 [Hi12 Hs12] [Hi23 Hs23]. split; [eauto|]. by etrans.
  - intros value s final s'. by apply assign_uuid_inv.
Qed.

(** C4: with [gen_uuid] never returning the same token twice, the [idMap]
    a run of the identity pass ends with maps every interim identifier that
    starts with the target prefix and a colon to itself, every other one to
    the target namespace followed by a token [gen_uuid] returned, and no two
    of those others to the same final identifier. The map is stable: over
    any traversal its entries are kept as they are, an interim identifier
    already in the map is replaced by the final identifier recorded for it,
    and one met for the first time is recorded as described. *)
Theorem identity_map_stable_injective
    gen_uuid idx prefix ns ignL context instances out st' :
  (∀ n m, gen_uuid n = gen_uuid m → n = m) →
  apply_uuids gen_uuid idx [prefix; ns] ignL context instances = Ok (out, st') →
  (∀ k v, idMap st' !! k = Some v → in_target_namespace prefix k = true → v = k) ∧
  (∀ k v, idMap st' !! k = Some v → in_target_namespace prefix k = false →
     ∃ n, v = ns +:+ gen_uuid n) ∧
  (∀ k1 k2 v, idMap st' !! k1 = Some v → idMap st' !! k2 = Some v →
     in_target_namespace prefix k1 = false → in_target_namespace prefix k2 = false →
     k1 = k2) ∧
  (∀ x parentKey s r s',
     set_uuid gen_uuid idx [prefix; ns] ignL x parentKey s = Ok (r, s') →
     idMap s ⊆ idMap s') ∧
  (∀ v final s, idMap s !! v = Some final →
     assign_uuid gen_uuid [prefix; ns] (PStr v) s
       = Ok (final, {| idMap := idMap s; drawn := S (drawn s) |})) ∧
  (∀ v s, idMap s !! v = None →
     let final := if in_target_namespace prefix v then v
                  else ns +:+ gen_uuid (drawn s) in
     assign_uuid gen_uuid [prefix; ns] (PStr v) s
       = Ok (final, {| idMap := <[v := final]> (idMap s); drawn := S (drawn s) |})).
Proof.
  intros Hinj Hrun.
  assert (Hinv : idMap_inv gen_uuid prefix ns st').
  { unfold apply_uuids in Hrun.
    destruct (set_uuid _ _ _ _ _ _ _) as [[r st1]|] eqn:E; [|done].
    destruct r; try done. unfold rbind in Hrun.
    destruct (apply_context context l); [|done]. injection Hrun as <- <-.
    apply (set_uuid_inv _ _ _ _ _ _ _ _ _ _ Hinj) in E as [E _]. apply E.
    split; [|split]; simpl; intros; by simplify_map_eq. }
  destruct Hinv as (H1 & H2 & H3).
  split; [done|]. split.
  { intros k v Hk Hns. destruct (H2 k v Hk Hns) as (n & _ & ->). eauto. }
  split; [done|]. split.
  { intros x parentKey s r s' H. by apply (set_uuid_inv _ _ _ _ _ _ _ _ _ _ Hinj) in H as [_ H]. }
  split.
  - intros v final s Hv. by rewrite assign_uuid_str, Hv.
  - intros v s Hv. by rewrite assign_uuid_str, Hv.
Qed.

Lemma identity_map_stable_injective_witness :
  let idx := create_labelmaps [] [] in
  let instances :=
    [PDict [("@id", PStr "Person_1");
            ("knows", PList [PDict [("@id", PStr "entity:bob")];
                             PDict [("@id", PStr "Person_1")];
                             PDict [("@id", PStr "Person_2")]])]] in
  ∃ out st',
    apply_uuids example_uuid idx ["entity"; "http://example.org/entity/"] [] [] instances
      = Ok (out, st') ∧
    idMap st' !! "Person_1" = Some "http://example.org/entity/u" ∧
    idMap st' !! "Person_2" = Some "http://example.org/entity/uuuu" ∧
    idMap st' !! "entity:bob" = Some "entity:bob" ∧
    ∀ k1 k2 v, idMap st' !! k1 = Some v → idMap st' !! k2 = Some v →
      in_target_namespace "entity" k1 = false → in_target_namespace "entity" k2 = false →
      k1 = k2.
Proof.
  intros idx instances.
  destruct (apply_uuids example_uuid idx ["entity"; "http://example.org/entity/"] [] []
              instances) as [[out st']|e] eqn:E; [|by vm_compute in E].
  exists out, st'. split; [done|].
  pose proof (identity_map_stable_injective example_uuid idx "entity"
                "http://example.org/entity/" [] [] instances out st'
                example_uuid_inj E) as (_ & _ & H3 & _).
  vm_compute in E. injection E as <- <-.
  split; [by vm_compute|]. split; [by vm_compute|]. split; [by vm_compute|]. exact H3.
Defined.

(** * Further properties of the mapper *)

(** ** The label index and the resolver on query rows *)


Lemma add_row_lookup_label m row language label :
  lookup_label (add_row m row) language label =
  if decide (row_language row = language ∧ lbl row = label)
  then Some (cls row) else lookup_label m language label.
Proof.
  unfold lookup_label, add_row. fold (row_language row).
  set (lg := row_language row).
  rewrite lookup_alter.
  destruct (decide (lg = language)) as [<-|Hne].
  - destruct (m !! lg) as [d|] eqn:E.
    + rewrite E. simpl. destruct (decide (lbl row = label)) as [<-|Hl].
      * rewrite decide_True by done. apply lookup_insert_eq.
      * rewrite decide_False by (intros [_ ?]; done). by rewrite lookup_insert_ne.
    + rewrite lookup_insert_eq. simpl. destruct (decide (lbl row = label)) as [<-|Hl].
      * rewrite decide_True by done. apply lookup_insert_eq.
      * rewrite decide_False by (intros [_ ?]; done). by rewrite lookup_insert_ne.
  - rewrite decide_False by (intros [? _]; done).
    destruct (m !! lg) as [d|] eqn:E; [done|]. by rewrite lookup_insert_ne.
Qed.

Lemma foldl_add_row_lookup_label rows : ∀ m language label,
  lookup_label (foldl add_row m rows) language label =
  foldl (λ acc row,
           if decide (row_language row = language ∧ lbl row = label)
           then Some (cls row) else acc)
        (lookup_label m language label) rows.
Proof.
  induction rows as [|row rows IH]; intros m language label; simpl; [done|].
  by rewrite IH, add_row_lookup_label.
Qed.

Lemma prepared_maps_lookup_label language label :
  lookup_label prepared_maps language label = None.
Proof.
  unfold lookup_label, prepared_maps.
  repeat (rewrite lookup_insert; case_decide; [done|]).
  by rewrite lookup_empty.
Qed.

Lemma create_labelmaps_lookup_label label_rows altlabel_rows language label :
  lookup_label (labelmaps (create_labelmaps label_rows altlabel_rows)) language label
    = last_row language label label_rows ∧
  lookup_label (altlabelmaps (create_labelmaps label_rows altlabel_rows)) language label
    = last_row language label altlabel_rows.
Proof.
  split; simpl; rewrite foldl_add_row_lookup_label;
    by rewrite prepared_maps_lookup_label.
Qed.

(** X1: what the label index holds is read off the query rows: under a
    language and a label stands the class of the last row with that label
    whose language tag, an empty tag counting as "nolang", is that language,
    and nothing stands there when no row has them. Later rows overwrite
    earlier ones, and a row touches no other language or label. *)
Theorem label_index_holds_last_row label_rows altlabel_rows language label :
  lookup_label (labelmaps (create_labelmaps label_rows altlabel_rows)) language label
    = last_row language label label_rows ∧
  lookup_label (altlabelmaps (create_labelmaps label_rows altlabel_rows)) language label
    = last_row language label altlabel_rows.
Proof. apply create_labelmaps_lookup_label. Qed.

Lemma lookup_total_lookup_label (maps : gmap string (gmap string string)) language s :
  is_Some (maps !! language) →
  (maps !!! language) !! s = lookup_label maps language s.
Proof.
  intros [m E]. unfold lookup_label. by rewrite (lookup_total_Some _ _ _ E), E.
Qed.

(** X2: resolving a string label against the index built from the query
    rows gives the class of the last alternate-label row for it in "en",
    failing that in "en-us", "en-gb" and untagged, then of the last
    primary-label row in the same four languages, then the German alternate
    and primary label; with no such row the default rule applies. *)
Theorem resolver_on_rows label_rows altlabel_rows s default :
  get_class_by_label (create_labelmaps label_rows altlabel_rows) (PStr s) default =
  match resolve_from_rows label_rows altlabel_rows s with
  | Some iri => Ok (PStr iri)
  | None =>
      if py_truthy default then Ok default
      else Err (Exception ("Error finding class for label " +:+ s))
  end.
Proof.
  pose proof (create_labelmaps_well_formed label_rows altlabel_rows) as Hwf.
  rewrite get_class_by_label_str by done.
  assert (first_hit s (label_search_order (create_labelmaps label_rows altlabel_rows))
          = resolve_from_rows label_rows altlabel_rows s) as ->; [|done].
  destruct Hwf as [Hl Ha].
  unfold label_search_order, resolve_from_rows. cbn [first_hit first_some].
  repeat match goal with
  | |- context [(?maps !!! ?lg) !! s] =>
      rewrite (lookup_total_lookup_label maps lg s)
        by (first [apply Hl | apply Ha]; language)
  end.
  repeat match goal with
  | |- context [lookup_label (labelmaps _) ?lg s] =>
      rewrite (proj1 (create_labelmaps_lookup_label label_rows altlabel_rows lg s))
  | |- context [lookup_label (altlabelmaps _) ?lg s] =>
      rewrite (proj2 (create_labelmaps_lookup_label label_rows altlabel_rows lg s))
  end.
  repeat match goal with
  | |- context [match ?x with Some _ => _ | None => _ end] => destruct x; [done|]
  end.
  done.
Qed.

(** ** The ignore list *)

Lemma get_class_by_label_self idx s :
  well_formed idx → s ≠ "" →
  get_class_by_label idx (PStr s) (PStr s) = Ok (resolved_or_self idx s).
Proof.
  intros Hwf Hs. rewrite get_class_by_label_str by done. unfold resolved_or_self.
  destruct (first_hit s (label_search_order idx)); [done|].
  simpl. apply String.eqb_neq in Hs. by rewrite Hs.
Qed.

(** X3: when no label of the ignore list is empty, building the list of
    their identifiers succeeds and gives, position by position, the class a
    label resolves to, or the label itself when no map has it. A label that
    is empty and unknown makes it raise. *)
Theorem entity_list_is_resolved_ignore_list idx ign :
  well_formed idx →
  (Forall (λ s, s ≠ "") ign →
     create_entity_instation_entity_list idx ign = Ok (map (resolved_or_self idx) ign)) ∧
  (∀ before after,
     ign = before ++ "" :: after → Forall (λ s, s ≠ "") before →
     first_hit "" (label_search_order idx) = None →
     create_entity_instation_entity_list idx ign
       = Err (Exception "Error finding class for label ")).
Proof.
  intros Hwf. split.
  - induction 1 as [|s rest Hs _ IH]; simpl; [done|].
    unfold rbind. by rewrite get_class_by_label_self, IH.
  - intros before after -> Hbefore Hnone.
    induction Hbefore as [|s rest Hs _ IH]; simpl; unfold rbind.
    + rewrite get_class_by_label_str by done. by rewrite Hnone.
    + rewrite get_class_by_label_self by done. by rewrite IH.
Qed.

Lemma entity_list_is_resolved_ignore_list_witness :
  let idx := create_labelmaps [ {| lbl := "unit"; cls := "ex:unit"; lang := "en" |} ] [] in
  create_entity_instation_entity_list idx ["unit"; "interest"]
    = Ok [PStr "ex:unit"; PStr "interest"] ∧
  create_entity_instation_entity_list idx ["unit"; ""]
    = Err (Exception "Error finding class for label ").
Proof.
  intros idx.
  assert (Hwf : well_formed idx) by apply create_labelmaps_well_formed.
  split.
  - apply (proj1 (entity_list_is_resolved_ignore_list idx ["unit"; "interest"] Hwf)).
    repeat constructor; discriminate.
  - apply (proj2 (entity_list_is_resolved_ignore_list idx ["unit"; ""] Hwf) ["unit"] []).
    + reflexivity.
    + repeat constructor; discriminate.
    + by vm_compute.
Defined.

(** ** Lists in the canonical JSON *)

Lemma fill_class_map_scalar idx ign v o st :
  is_scalar v = true → fill_class_map idx ign v o st = Ok (PNone, st).
Proof. by destruct v. Qed.

Lemma fill_elems_scalars idx ign l st :
  Forall (λ v, is_scalar v = true) l →
  fill_elems idx ign l st = Ok (map (λ _, PNone) l, st).
Proof.
  induction 1 as [|v l Hv _ IH]; simpl; [done|].
  unfold bind. by rewrite fill_class_map_scalar, IH.
Qed.

(** X4: a list of scalars is mapped to literal wrappers only if every
    element is a boolean, a number or a string. As soon as one element is
    [null], every element of the list, the numbers and strings too, is
    mapped to [None]; the counter and the entity table are left alone. *)
Theorem scalar_list_with_null_is_blanked idx ign l o st :
  Forall (λ v, is_scalar v = true) l →
  fill_class_map idx ign (PList l) o st =
  Ok (if forallb is_primitive l
      then PList (map (λ val, PDict [("@value", val)]) l)
      else if o then PDict [("@list", PList (map (λ _, PNone) l))]
           else PList (map (λ _, PNone) l),
      st).
Proof.
  intros Hl. rewrite fill_class_map_list.
  destruct (forallb is_primitive l); [done|].
  unfold bind. rewrite fill_elems_scalars by done. by destruct o.
Qed.

Lemma scalar_list_with_null_is_blanked_witness :
  fill_class_map (create_labelmaps [] []) [] (PList [PInt 1; PNone; PStr "a"]) false
    {| incrementalInt := 0; classMap := [] |}
  = Ok (PList [PNone; PNone; PNone], {| incrementalInt := 0; classMap := [] |}).
Proof.
  apply (scalar_list_with_null_is_blanked (create_labelmaps [] []) []
           [PInt 1; PNone; PStr "a"] false {| incrementalInt := 0; classMap := [] |}).
  repeat constructor.
Defined.

(** X5: for a list under a key (other than the reserved ones) the
    [listHandler] declaration decides between an ordered and a plain list
    only when some element is not a primitive; a list of primitives is
    stored as a plain list of literal wrappers whether or not the key is
    declared. A [listHandler] that is [null], a boolean or a number makes
    the step raise a [TypeError]. *)
Theorem list_handler_rule idx ign h key c l tmp st :
  well_formed idx →
  first_char key = Ok c → key ≠ "hasIdentifier" → key ≠ "listHandler" →
  (∀ ordered, py_contains_str key h = Ok ordered →
     fill_item (fill_class_map idx ign) idx ign h key (PList l) tmp st =
     if forallb is_primitive l
     then Ok (dict_set key (PList (map (λ val, PDict [("@value", val)]) l)) tmp, st)
     else
       match fill_elems idx ign l st with
       | Ok (rs, st') =>
           Ok (dict_set key (if ordered then PDict [("@list", PList rs)] else PList rs) tmp,
               st')
       | Err e => Err e
       end) ∧
  (match h with PList _ | PStr _ | PDict _ => False | _ => True end →
     fill_item (fill_class_map idx ign) idx ign h key (PList l) tmp st = Err TypeError).
Proof.
  intros Hwf Hc Hh Hl. apply String.eqb_neq in Hh, Hl.
  destruct (fill_item_prelude (fill_class_map idx ign) idx ign h key c (PList l) tmp st
              Hwf Hc Hl Hh) as (cls & _ & ->).
  split.
  - intros ordered Ho. unfold bind, lift. rewrite Ho, fill_class_map_list.
    destruct (forallb is_primitive l); [done|]. unfold bind, ret.
    destruct (fill_elems idx ign l st) as [[rs st']|]; [|done]. by destruct ordered.
  - intros Hbad. unfold bind, lift. by destruct h.
Qed.

Lemma list_handler_rule_witness :
  let idx := create_labelmaps [] [] in
  let st := {| incrementalInt := 0; classMap := [] |} in
  fill_item (fill_class_map idx []) idx [] (PList [PStr "steps"]) "steps"
    (PList [PInt 1; PInt 2]) [] st
  = Ok ([("steps", PList [PDict [("@value", PInt 1)]; PDict [("@value", PInt 2)]])], st) ∧
  fill_item (fill_class_map idx []) idx [] (PInt 5) "steps" (PList [PInt 1]) [] st
  = Err TypeError.
Proof.
  intros idx st.
  assert (Hwf : well_formed idx) by apply create_labelmaps_well_formed.
  split.
  - apply (proj1 (list_handler_rule idx [] (PList [PStr "steps"]) "steps" 115%N
             [PInt 1; PInt 2] [] st Hwf eq_refl ltac:(discriminate) ltac:(discriminate))
             true).
    reflexivity.
  - apply (proj2 (list_handler_rule idx [] (PInt 5) "steps" 115%N [PInt 1] [] st Hwf
             eq_refl ltac:(discriminate) ltac:(discriminate))).
    exact I.
Defined.

(** ** What a traversal stores *)

Lemma fill_item_stored_key self idx ign h key value tmp st tmp' st' :
  fill_item self idx ign h key value tmp st = Ok (tmp', st') →
  tmp' = tmp ∨
  (reserved_key key = false ∧ ∃ v, tmp' = dict_set key v tmp) ∨
  (∃ identifier, tmp' = dict_set "@id" (PStr identifier) tmp).
Proof.
  intros H. unfold fill_item, entity_identifier in H. unfold reserved_key.
  run_in H; eauto;
    repeat match goal with
    | E : String.eqb _ _ = false |- _ => rewrite E; clear E
    end; simpl; eauto.
Qed.

Lemma fill_items_stored_keys idx ign h its tmp0 st0 tmp st :
  fill_items idx ign h its tmp0 st0 = Ok (tmp, st) →
  ∀ k, k ∈ dict_keys tmp →
    k ∈ dict_keys tmp0 ∨ k = "@id" ∨ (k ∈ dict_keys its ∧ reserved_key k = false).
Proof.
  induction its as [|[key value] rest IH] in tmp0, st0 |- *; simpl; intros H k Hk.
  - injection H as <- <-. by left.
  - unfold bind in H.
    destruct (fill_item _ _ _ _ _ _ _ st0) as [[tmp1 st1]|] eqn:E; [|done].
    destruct (IH _ _ H k Hk) as [Hk1|[->|[Hin Hres]]].
    + apply fill_item_stored_key in E as [->|[[Hres [v ->]]|[i ->]]].
      * by left.
      * rewrite dict_keys_set in Hk1. destruct (dict_has key tmp0); [by left|].
        apply elem_of_app in Hk1 as [?|Hk1]; [by left|].
        apply list_elem_of_singleton in Hk1 as ->. right. right. split; [by left|done].
      * rewrite dict_keys_set in Hk1. destruct (dict_has "@id" tmp0); [by left|].
        apply elem_of_app in Hk1 as [?|Hk1]; [by left|].
        apply list_elem_of_singleton in Hk1 as ->. by right; left.
    + by right; left.
    + right. right. split; [by right|done].
Qed.

(** X6: the dictionary a traversal returns for an object has no key twice,
    and each of its keys is "@id" or a key of the object other than
    [hasIdentifier] and [listHandler]: the two directives are never
    emitted, and no key is invented except "@id". *)
Theorem traversal_result_keys idx ign items o st r st' :
  fill_class_map idx ign (PDict items) o st = Ok (r, st') →
  ∃ tmp, r = PDict tmp ∧ NoDup (dict_keys tmp) ∧
    ∀ k, k ∈ dict_keys tmp →
      k = "@id" ∨ (k ∈ dict_keys items ∧ k ≠ "hasIdentifier" ∧ k ≠ "listHandler").
Proof.
  intros H. apply fill_class_map_dict_result in H as (tmp & -> & Hnd & H).
  exists tmp. split; [done|]. split; [done|].
  intros k Hk. destruct (fill_items_stored_keys _ _ _ _ _ _ _ _ H k Hk) as [Hnil|[->|[Hin Hres]]].
  - by apply elem_of_nil in Hnil.
  - by left.
  - right. split; [done|]. unfold reserved_key in Hres.
    apply orb_false_iff in Hres as [H1 H2]. by apply String.eqb_neq in H1, H2.
Qed.

Lemma traversal_result_keys_witness :
  let items := [("hasIdentifier", PStr "id"); ("listHandler", PList []);
                ("id", PStr "42"); ("Pet", PDict [("hasIdentifier", PStr "rex")])] in
  ∃ r st', fill_class_map (create_labelmaps [] []) [] (PDict items) false
             {| incrementalInt := 0; classMap := [] |} = Ok (r, st') ∧
    ∃ tmp, r = PDict tmp ∧ NoDup (dict_keys tmp) ∧
      ∀ k, k ∈ dict_keys tmp →
        k = "@id" ∨ (k ∈ dict_keys items ∧ k ≠ "hasIdentifier" ∧ k ≠ "listHandler").
Proof.
  intros items.
  destruct (fill_class_map (create_labelmaps [] []) [] (PDict items) false
              {| incrementalInt := 0; classMap := [] |}) as [[r st']|] eqn:E;
    [|by vm_compute in E].
  exists r, st'. split; [done|].
  exact (traversal_result_keys _ _ _ _ _ _ _ E).
Defined.

(** ** The type list *)

Lemma additional_types_strings idx ss :
  well_formed idx →
  additional_types idx (map PStr ss) =
  Ok (map (resolved_or_self idx) (filter (λ s, strips_to_empty s = false) ss)).
Proof.
  intros Hwf. induction ss as [|s ss IH]; simpl; [done|].
  destruct (String.eqb s "") eqn:Es; simpl.
  - apply String.eqb_eq in Es as ->. rewrite IH.
    rewrite filter_cons_False; [done|]. by vm_compute.
  - destruct (strips_to_empty s) eqn:Eb.
    + rewrite IH. by rewrite filter_cons_False by (by rewrite Eb).
    + apply String.eqb_neq in Es. unfold rbind.
      rewrite get_class_by_label_self, IH by done.
      by rewrite filter_cons_True by done.
Qed.

(** X7: when [additionalTypes] is a list of strings, the type list of the
    entity is the class resolved for the key followed, in their order, by
    what each entry that is not blank resolves to, an entry no map holds
    standing for itself; entries that are empty or only white space are
    dropped. A [null], [false], zero or empty entry is skipped too, while
    any other entry that is not a string aborts the run with an
    [AttributeError]. Without a list under [additionalTypes] the type list
    is the class of the key alone. *)
Theorem entity_types_rule idx cls value :
  well_formed idx →
  (∀ ss, dict_get "additionalTypes" value = Some (PList (map PStr ss)) →
     entity_types idx cls value =
     Ok (cls :: map (resolved_or_self idx)
                  (filter (λ s, strips_to_empty s = false) ss))) ∧
  (∀ before bad after,
     dict_get "additionalTypes" value = Some (PList (map PStr before ++ bad :: after)) →
     py_truthy bad = true → match bad with PStr _ => False | _ => True end →
     entity_types idx cls value = Err AttributeError) ∧
  (∀ falsy rest,
     py_truthy falsy = false →
     additional_types idx (falsy :: rest) = additional_types idx rest) ∧
  (match dict_get "additionalTypes" value with Some (PList _) => False | _ => True end →
     entity_types idx cls value = Ok [cls]).
Proof.
  intros Hwf. split; [|split; [|split]].
  - intros ss Hget. unfold entity_types, rbind. rewrite Hget.
    by rewrite additional_types_strings.
  - intros before bad after Hget Ht Hbad. unfold entity_types, rbind. rewrite Hget.
    assert (additional_types idx (map PStr before ++ bad :: after) = Err AttributeError)
      as ->; [|done].
    clear Hget. induction before as [|s before IH]; simpl.
    + rewrite Ht. by destruct bad.
    + destruct (String.eqb s "") eqn:Es; simpl; [exact IH|].
      destruct (strips_to_empty s); [exact IH|]. unfold rbind.
      apply String.eqb_neq in Es. rewrite get_class_by_label_self by done.
      by rewrite IH.
  - intros falsy rest Hf. simpl. by rewrite Hf.
  - intros Hno. unfold entity_types.
    destruct (dict_get "additionalTypes" value) as [[]|]; done.
Qed.

Lemma entity_types_rule_witness :
  let idx := create_labelmaps [ {| lbl := "Bar"; cls := "ex:Bar"; lang := "" |} ] [] in
  let nbsp := String (ascii_of_N 194) (String (ascii_of_N 160) EmptyString) in
  entity_types idx (PStr "ex:Foo")
    [("additionalTypes", PList (map PStr ["Bar"; " "; ""; nbsp +:+ " "; "Baz"]))]
    = Ok [PStr "ex:Foo"; PStr "ex:Bar"; PStr "Baz"] ∧
  entity_types idx (PStr "ex:Foo")
    [("additionalTypes", PList (map PStr ["Bar"] ++ PInt 5 :: []))]
    = Err AttributeError ∧
  entity_types idx (PStr "ex:Foo") [("additionalTypes", PStr "Bar")]
    = Ok [PStr "ex:Foo"].
Proof.
  intros idx nbsp.
  assert (Hwf : well_formed idx) by apply create_labelmaps_well_formed.
  split; [|split].
  - apply (proj1 (entity_types_rule idx (PStr "ex:Foo")
             [("additionalTypes", PList (map PStr ["Bar"; " "; ""; nbsp +:+ " "; "Baz"]))] Hwf)
             ["Bar"; " "; ""; nbsp +:+ " "; "Baz"]).
    reflexivity.
  - apply (proj1 (proj2 (entity_types_rule idx (PStr "ex:Foo")
             [("additionalTypes", PList (map PStr ["Bar"] ++ PInt 5 :: []))] Hwf))
             ["Bar"] (PInt 5) []); [reflexivity | reflexivity | exact I].
  - apply (proj2 (proj2 (proj2 (entity_types_rule idx (PStr "ex:Foo")
             [("additionalTypes", PStr "Bar")] Hwf)))).
    exact I.
Defined.

(** ** The entity table stays well-formed *)

Lemma dict_set_Forall {V} (P : V → Prop) k v (d : list (string * V)) :
  P v → Forall (λ kv, P (snd kv)) d → Forall (λ kv, P (snd kv)) (dict_set k v d).
Proof.
  intros Hv. induction 1 as [|[k' v'] d Hkv Hrest IH]; simpl.
  - by repeat constructor.
  - destruct (String.eqb k k'); constructor; done.
Qed.

Lemma dict_get_Forall {V} (P : V → Prop) k v (d : list (string * V)) :
  Forall (λ kv, P (snd kv)) d → dict_get k d = Some v → P v.
Proof.
  induction 1 as [|[k' v'] d Hkv _ IH]; simpl; [done|].
  destruct (String.eqb k k'); [by intros [= <-] | done].
Qed.

Lemma new_ldCls_ok idx key identifier types ldCls :
  new_ldCls idx key identifier types = Ok ldCls → descriptor_ok ldCls.
Proof.
  intros H. split; [by eapply new_ldCls_NoDup|].
  unfold new_ldCls in H. set (d0 := [_; _]) in H.
  assert (Hd0 : "@type" ∈ dict_keys d0 ∧ "@id" ∈ dict_keys d0).
  { split; [by left | by right; left]. }
  clearbody d0. unfold rbind in H.
  destruct (resolve_key idx "label" rdfs_label) as [lk|]; [|done].
  injection H as <-. destruct Hd0 as [H1 H2].
  split; by apply dict_keys_set_subseteq.
Qed.

Lemma copy_sub_ok sub ldCls : descriptor_ok ldCls → descriptor_ok (copy_sub sub ldCls).
Proof.
  intros (Hnd & H1 & H2). split; [by apply copy_sub_NoDup|].
  split; by apply copy_sub_keys.
Qed.

Lemma class_map_add_ok identifier ldCls cm :
  descriptor_ok ldCls → class_map_ok cm → class_map_ok (class_map_add identifier ldCls cm).
Proof.
  intros Hld [Hnd Hall]. unfold class_map_add.
  destruct (dict_get identifier cm) as [old|] eqn:E.
  - destruct (dict_len ldCls >? dict_len old); [|done].
    split; [by apply dict_set_NoDup|].
    apply (dict_set_Forall descriptor_ok); [|done].
    destruct (dict_get_Forall descriptor_ok _ _ _ Hall E) as (Hn & H1 & H2).
    split; [by apply dict_update_NoDup|]. split; by apply dict_update_keys_l.
  - split; [by apply dict_set_NoDup|]. by apply (dict_set_Forall descriptor_ok).
Qed.

Lemma entity_identifier_class_map key d st identifier st' :
  entity_identifier key d st = Ok (identifier, st') → classMap st' = classMap st.
Proof. intros H. unfold entity_identifier in H. by run_in H. Qed.

Lemma fill_item_ok self idx ign h key value tmp st tmp' st' :
  (∀ o st r st', self value o st = Ok (r, st') →
     class_map_ok (classMap st) → class_map_ok (classMap st')) →
  fill_item self idx ign h key value tmp st = Ok (tmp', st') →
  class_map_ok (classMap st) → class_map_ok (classMap st').
Proof.
  intros Hself H Hok. unfold fill_item in H. run_in H; simpl; eauto;
    repeat match goal with
    | E : entity_identifier _ _ _ = Ok _ |- _ =>
        apply entity_identifier_class_map in E; try rewrite <- E in Hok
    end; eauto.
  apply class_map_add_ok; [|by eauto].
  apply copy_sub_ok. by eapply new_ldCls_ok.
Qed.

Lemma fill_class_map_ok idx ign v : ∀ o st r st',
  fill_class_map idx ign v o st = Ok (r, st') →
  class_map_ok (classMap st) → class_map_ok (classMap st').
Proof.
  induction v as [|b|z|f|s|l IH|d IH] using pyval_ind; intros o st r st' H Hok;
    try (by injection H as <- <-).
  - rewrite fill_class_map_list in H.
    destruct (forallb is_primitive l); [by injection H as <- <-|].
    unfold bind in H.
    destruct (fill_elems idx ign l st) as [[tmp st1]|] eqn:E; [|done].
    injection H as <- <-. clear o.
    induction IH as [|x l Hx _ IHl] in st, tmp, st1, E, Hok |- *; simpl in E.
    + by injection E as <- <-.
    + unfold bind in E.
      destruct (fill_class_map idx ign x false st) as [[r1 s1]|] eqn:E1; [|done].
      destruct (fill_elems idx ign l s1) as [[rs s2]|] eqn:E2; [|done].
      injection E as <- <-. eapply IHl; [done|]. by eapply Hx.
  - apply fill_class_map_dict_result in H as (tmp & -> & _ & H).
    set (h := default (PList []) (dict_get "listHandler" d)) in H. clearbody h.
    revert H. generalize (@nil (string * pyval)). intros tmp0 H.
    induction IH as [|[key value] d Hv _ IHd] in st, tmp0, H, Hok |- *; simpl in H.
    + by injection H as <- <-.
    + unfold bind in H.
      destruct (fill_item _ _ _ _ _ _ _ st) as [[tmp1 st1]|] eqn:E; [|done].
      eapply IHd; [|done].
      eapply fill_item_ok; [|done..]. intros o0 s0 r0 s0'. apply Hv.
Qed.

(** X8: the instances the structural pass hands on are the descriptors of
    the entity table, one for each interim identifier, no identifier
    standing twice; each is a dictionary without a repeated key that has
    the keys "@type" and "@id"; and the counter has not gone below the
    value the run started with. *)
Theorem instances_are_well_formed idx ign canon counter instances st :
  create_jsonld_instances idx ign canon counter = Ok (instances, st) →
  NoDup (dict_keys (classMap st)) ∧
  instances = map (λ kv, PDict (snd kv)) (classMap st) ∧
  Forall (λ e, ∃ d, e = PDict d ∧ NoDup (dict_keys d) ∧
                    "@type" ∈ dict_keys d ∧ "@id" ∈ dict_keys d) instances ∧
  counter ≤ incrementalInt st.
Proof.
  unfold create_jsonld_instances. intros H.
  destruct (fill_class_map idx ign canon false _) as [[r st1]|] eqn:E; [|done].
  injection H as <- <-.
  assert (Hok : class_map_ok (classMap st1)).
  { eapply fill_class_map_ok; [done|]. split; simpl; [apply NoDup_nil_2 | done]. }
  destruct Hok as [Hnd Hall]. split; [done|]. split; [done|]. split.
  - apply Forall_map. eapply Forall_impl; [done|].
    intros [k d] Hd. simpl in *. by exists d.
  - change counter with (incrementalInt {| incrementalInt := counter; classMap := [] |}).
    revert E. apply (fill_class_map_steps (λ s s', incrementalInt s ≤ incrementalInt s'));
      simpl; intros; lia.
Qed.

Lemma instances_are_well_formed_witness :
  let canon := PList [PDict [("Person", PDict [("hasIdentifier", PStr "a"); ("name", PStr "x")])];
                      PDict [("Person", PDict [("hasIdentifier", PStr "a"); ("age", PInt 5);
                                               ("Pet", PDict [("name", PStr "Rex")])])]] in
  ∃ instances st,
    create_jsonld_instances (create_labelmaps [] []) [] canon 7 = Ok (instances, st) ∧
    NoDup (dict_keys (classMap st)) ∧ length instances = 2%nat ∧ 7 ≤ incrementalInt st.
Proof.
  intros canon.
  destruct (create_jsonld_instances (create_labelmaps [] []) [] canon 7)
    as [[instances st]|] eqn:E; [|by vm_compute in E].
  exists instances, st. split; [done|].
  destruct (instances_are_well_formed _ _ _ _ _ _ E) as (Hnd & Hinst & _ & Hc).
  split; [done|]. split; [|done].
  vm_compute in E. by injection E as <- <-.
Defined.

(** ** The namespace pass *)

Lemma set_namespaces_wrappers idx l :
  forallb is_primitive l = true →
  set_namespaces idx (PList (map value_wrapper l)) = Ok (PList (map value_wrapper l)).
Proof.
  intros Hl. simpl. unfold rbind.
  assert ((fix elems (l : list pyval) : result (list pyval) :=
             match l with
             | [] => Ok []
             | elem :: rest =>
                 match set_namespaces idx elem with
                 | Ok a => match elems rest with Ok a0 => Ok (a :: a0) | Err e => Err e end
                 | Err e => Err e
                 end
             end) (map value_wrapper l) = Ok (map value_wrapper l)) as ->; [|done].
  induction l as [|v l IH]; [done|].
  simpl in Hl. apply andb_true_iff in Hl as [Hv Hl].
  cbn [map]. rewrite IH by done.
  by destruct v.
Qed.

Lemma set_uuid_wrappers gen_uuid idx ect ignL l parentKey st :
  forallb is_primitive l = true →
  set_uuid gen_uuid idx ect ignL (PList (map value_wrapper l)) parentKey st
    = Ok (PList (map value_wrapper l), st).
Proof.
  intros Hl. rewrite set_uuid_list. unfold bind.
  assert (set_uuid_elems gen_uuid idx ect ignL (map value_wrapper l) st
          = Ok (map value_wrapper l, st)) as ->; [|done].
  induction l as [|v l IH]; [done|].
  simpl in Hl. apply andb_true_iff in Hl as [Hv Hl].
  cbn [map set_uuid_elems]. unfold bind.
  assert (set_uuid gen_uuid idx ect ignL (value_wrapper v) None st
          = Ok (value_wrapper v, st)) as ->.
  { by destruct v. }
  by rewrite IH.
Qed.

(** X9: a list of booleans, numbers and strings comes out of the
    structural pass as the list of their literal wrappers, and that list
    goes through the namespace pass and the identity pass as it is: no
    label is looked up for it, no identifier is drawn, and [idMap] is not
    touched. *)
Theorem literal_list_passes_unchanged idx ign gen_uuid ect ignL l o st parentKey ust :
  forallb is_primitive l = true →
  fill_class_map idx ign (PList l) o st = Ok (PList (map value_wrapper l), st) ∧
  set_namespaces idx (PList (map value_wrapper l)) = Ok (PList (map value_wrapper l)) ∧
  set_uuid gen_uuid idx ect ignL (PList (map value_wrapper l)) parentKey ust
    = Ok (PList (map value_wrapper l), ust).
Proof.
  intros Hl. split; [|split].
  - rewrite fill_class_map_list. by rewrite Hl.
  - by apply set_namespaces_wrappers.
  - by apply set_uuid_wrappers.
Qed.

Lemma literal_list_passes_unchanged_witness :
  let l := [PInt 1; PStr "a"; PBool true] in
  set_namespaces (create_labelmaps [ {| lbl := "a"; cls := "ex:a"; lang := "en" |} ] [])
    (PList (map value_wrapper l)) = Ok (PList (map value_wrapper l)).
Proof.
  intros l.
  apply (literal_list_passes_unchanged
           (create_labelmaps [ {| lbl := "a"; cls := "ex:a"; lang := "en" |} ] [])
           [] example_uuid [] [] l false {| incrementalInt := 0; classMap := [] |}
           None {| idMap := ∅; drawn := O |}).
  reflexivity.
Defined.

Lemma resolve_key_namespaced idx key :
  well_formed idx → key ≠ "" → key ≠ "@id" → key ≠ "@type" →
  resolve_key idx key key = Ok (namespaced_key idx key).
Proof.
  intros Hwf Hk H1 H2. unfold resolve_key, namespaced_key, rbind.
  apply String.eqb_neq in H1, H2. rewrite H1, H2. cbn [orb].
  rewrite get_class_by_label_str by done.
  destruct (first_hit key (label_search_order idx)); [done|].
  cbn [py_truthy]. apply String.eqb_neq in Hk. by rewrite Hk.
Qed.

Lemma set_namespaces_plain_loop idx items : ∀ tmp,
  well_formed idx → Forall plain_entry items →
  (fix items_loop (its : dict) (tmp : dict) : result pyval :=
     match its with
     | [] => Ok (PDict tmp)
     | (key, value) :: rest =>
         let tmp := if String.eqb key "@id" then dict_set key value tmp else tmp in
         if String.eqb key "@type" then
           let+ r := get_class_by_label idx value value in
           items_loop rest (dict_set key r tmp)
         else
           match value with
           | PList _ =>
               let+ v := set_namespaces idx value in
               let+ k := resolve_key idx key key in
               items_loop rest (dict_set k v tmp)
           | _ =>
               if String.eqb key "@value" then Ok (PDict [("@value", value)])
               else if negb (String.eqb key "@id") then
                 let+ k := resolve_key idx key key in
                 items_loop rest (dict_set k value tmp)
               else items_loop rest tmp
           end
     end) items tmp =
  Ok (PDict (foldl (λ acc kv, dict_set (namespaced_key idx (fst kv)) (snd kv) acc) tmp items)).
Proof.
  intros tmp Hwf Hall. induction Hall as [|[key value] rest (Hk & Hv & Hkind) _ IH] in tmp |- *;
    [done|].
  simpl in Hk, Hv, Hkind. cbn [foldl fst snd].
  destruct (String.eqb key "@type") eqn:Et.
  - apply String.eqb_eq in Et as ->. simpl String.eqb. cbv iota.
    destruct value; try done. unfold rbind. cbn [get_class_by_label is_list].
    cbv iota. rewrite IH. done.
  - destruct (String.eqb key "@id") eqn:Ei.
    + apply String.eqb_eq in Ei as ->.
      destruct value; try done; simpl; rewrite IH; done.
    + apply String.eqb_neq in Hv as Ev. rewrite Ev.
      apply String.eqb_neq in Et, Ei.
      destruct value; try done; simpl; unfold rbind;
        rewrite resolve_key_namespaced by done; rewrite IH; done.
Qed.

(** X10: for a dictionary whose entries are plain (the identity reference,
    a type list, or an entry with a non-empty key other than "@value" whose
    value is not a list), the namespace pass stores each value as it is,
    without descending into it, under the key the resolver gives (the key
    itself when no map holds it, "@id" and "@type" unchanged), going through
    the entries in order: two keys that resolve to the same identifier end
    up as one entry, at the place of the first and with the value of the
    last. *)
Theorem namespace_pass_on_plain_entries idx items :
  well_formed idx → Forall plain_entry items →
  set_namespaces idx (PDict items) =
  Ok (PDict (foldl (λ acc kv, dict_set (namespaced_key idx (fst kv)) (snd kv) acc) [] items)).
Proof. intros Hwf Hall. cbn [set_namespaces]. by apply set_namespaces_plain_loop. Qed.

Lemma namespace_pass_on_plain_entries_witness :
  let idx := create_labelmaps
               [ {| lbl := "name"; cls := "ex:name"; lang := "en" |} ]
               [ {| lbl := "called"; cls := "ex:name"; lang := "en" |} ] in
  set_namespaces idx
    (PDict [("@type", PList [PStr "default"]); ("@id", PStr "Person_1");
            ("name", PStr "Ada"); ("home", PDict [("name", PStr "x")]);
            ("called", PStr "Countess")])
  = Ok (PDict [("@type", PList [PStr "default"]); ("@id", PStr "Person_1");
               ("ex:name", PStr "Countess"); ("home", PDict [("name", PStr "x")])]).
Proof.
  intros idx.
  assert (Hwf : well_formed idx) by apply create_labelmaps_well_formed.
  rewrite (namespace_pass_on_plain_entries idx _ Hwf).
  - by vm_compute.
  - repeat constructor; simpl; discriminate.
Defined.

(** ** The identity pass keeps the shape of what it walks *)

Lemma dict_keys_set_in {V} k (v : V) (d : list (string * V)) :
  k ∈ dict_keys d → dict_keys (dict_set k v d) = dict_keys d.
Proof.
  intros Hk. rewrite dict_keys_set. unfold dict_has.
  by destruct (dict_keys_get k d Hk) as [x ->].
Qed.

Lemma relabel_keys idx ect value final cur r :
  relabel idx ect value final cur = Ok r → dict_keys (snd r) = dict_keys cur.
Proof.
  unfold relabel, rbind. destruct (resolve_key idx "label" rdfs_label) as [lk|]; [|done].
  destruct (dict_has lk cur) eqn:Hhas; [|by intros [= <-]].
  destruct (tuple_item ect 1); [|done]. intros [= <-]. simpl.
  rewrite dict_keys_set. by rewrite Hhas.
Qed.

Lemma set_uuid_items_keys gen_uuid idx ect ignL parentKey its :
  ∀ cur ow st cur' st',
  (∀ k, k ∈ dict_keys its → k ∈ dict_keys cur) →
  set_uuid_items gen_uuid idx ect ignL parentKey its cur ow st = Ok (cur', st') →
  dict_keys cur' = dict_keys cur.
Proof.
  induction its as [|[key value] rest IH]; intros cur ow st cur' st' Hin H; simpl in H.
  - by injection H as <- <-.
  - assert (Hkey : key ∈ dict_keys cur) by (apply Hin; by left).
    assert (Hrest : ∀ cur2 : dict, dict_keys cur2 = dict_keys cur →
              ∀ k, k ∈ dict_keys rest → k ∈ dict_keys cur2).
    { intros cur2 -> k Hk. apply Hin. by right. }
    destruct (String.eqb key "@id" && negb (parent_in parentKey ignL)).
    + unfold bind in H.
      destruct (assign_uuid gen_uuid ect value st) as [[final st1]|]; [|done].
      unfold lift in H. destruct (relabel _ _ _ _ _) as [r|] eqn:Er; [|done].
      apply relabel_keys in Er. rewrite dict_keys_set_in in Er by done.
      rewrite (IH _ _ _ _ _ (Hrest _ Er) H). done.
    + destruct (match ow with Some k => String.eqb k key | None => false end);
        [by eapply IH; [apply (Hrest cur)|] |].
      destruct value; try (by eapply IH; [apply (Hrest cur)|]); unfold bind in H;
        destruct (set_uuid _ _ _ _ _ _ st) as [[v st1]|]; try done;
        (rewrite (IH _ _ _ _ _ (Hrest _ (dict_keys_set_in key v cur Hkey)) H);
         by apply dict_keys_set_in).
Qed.

Lemma set_uuid_elems_length gen_uuid idx ect ignL l : ∀ st l' st',
  set_uuid_elems gen_uuid idx ect ignL l st = Ok (l', st') → length l' = length l.
Proof.
  induction l as [|x l IH]; intros st l' st' H; simpl in H.
  - by injection H as <- <-.
  - unfold bind in H.
    destruct (set_uuid _ _ _ _ x None st) as [[r s1]|]; [|done].
    destruct (set_uuid_elems _ _ _ _ l s1) as [[rs s2]|] eqn:E; [|done].
    injection H as <- <-. simpl. f_equal. by eapply IH.
Qed.

(** X11: the identity pass never adds, removes, renames or reorders a
    key, and never changes the length of a list: what it returns for a
    dictionary is a dictionary with the same keys in the same order, for a
    list a list of the same length, and anything else it returns as it is
    without drawing an identifier. *)
Theorem identity_pass_keeps_shape gen_uuid idx ect ignL x parentKey st r st' :
  set_uuid gen_uuid idx ect ignL x parentKey st = Ok (r, st') →
  match x with
  | PDict items => ∃ cur, r = PDict cur ∧ dict_keys cur = dict_keys items
  | PList l => ∃ l', r = PList l' ∧ length l' = length l
  | _ => r = x ∧ st' = st
  end.
Proof.
  intros H. destruct x as [| | | | |l|items]; try (by injection H as <- <-).
  - rewrite set_uuid_list in H. unfold bind in H.
    destruct (set_uuid_elems _ _ _ _ l st) as [[l' s1]|] eqn:E; [|done].
    injection H as <- <-. exists l'. split; [done|]. by eapply set_uuid_elems_length.
  - rewrite set_uuid_dict in H. unfold bind in H.
    destruct (set_uuid_items _ _ _ _ _ items items None st) as [[cur s1]|] eqn:E; [|done].
    injection H as <- <-. exists cur. split; [done|].
    by eapply set_uuid_items_keys.
Qed.

Lemma identity_pass_keeps_shape_witness :
  let x := PDict [("@id", PStr "Person_1"); (rdfs_label, PStr "Person");
                  ("knows", PList [PDict [("@id", PStr "Person_2")]])] in
  ∃ r st', set_uuid example_uuid (create_labelmaps [] [])
             ["entity"; "http://example.org/entity/"] [] x None
             {| idMap := ∅; drawn := O |} = Ok (r, st') ∧
           ∃ cur, r = PDict cur ∧ dict_keys cur = ["@id"; rdfs_label; "knows"].
Proof.
  intros x.
  destruct (set_uuid example_uuid (create_labelmaps [] [])
              ["entity"; "http://example.org/entity/"] [] x None
              {| idMap := ∅; drawn := O |}) as [[r st']|] eqn:E; [|by vm_compute in E].
  exists r, st'. split; [done|].
  exact (identity_pass_keeps_shape _ _ _ _ _ _ _ _ _ E).
Defined.

(** ** References become final identifiers *)

Lemma assign_uuid_recorded gen_uuid ect value st final st' :
  assign_uuid gen_uuid ect value st = Ok (final, st') →
  idMap st ⊆ idMap st' ∧ ∃ v, value = PStr v ∧ idMap st' !! v = Some final.
Proof.
  intros H. unfold assign_uuid, draw_uuid, remember, final_id in H.
  destruct value as [| | | |v| |]; try (by cbv in H).
  unfold bind in H. simpl in H.
  destruct (idMap st !! v) as [f|] eqn:E.
  - simpl in H. rewrite E in H. injection H as <- <-. simpl. split; [done|]. eauto.
  - unfold rbind in H. destruct (tuple_item ect 0) as [prefix|]; [|done].
    destruct (String.prefix (prefix +:+ ":") v).
    + simpl in H. rewrite lookup_insert_eq in H. injection H as <- <-. simpl.
      split; [by apply insert_subseteq|]. exists v. by rewrite lookup_insert_eq.
    + destruct (tuple_item ect 1) as [ns|]; [|done].
      simpl in H. rewrite lookup_insert_eq in H. injection H as <- <-. simpl.
      split; [by apply insert_subseteq|]. exists v. by rewrite lookup_insert_eq.
Qed.

Lemma set_uuid_items_idMap gen_uuid idx ect ignL parentKey its cur ow st cur' st' :
  set_uuid_items gen_uuid idx ect ignL parentKey its cur ow st = Ok (cur', st') →
  idMap st ⊆ idMap st'.
Proof.
  apply (set_uuid_items_steps gen_uuid idx ect ignL (λ s s', idMap s ⊆ idMap s')).
  - done.
  - intros s1 s2 s3 H12 H23. by etrans.
  - intros value s final s' H. by apply assign_uuid_recorded in H as [H _].
  - apply Forall_forall. intros kv _ p s r s'.
    apply (set_uuid_steps gen_uuid idx ect ignL (λ s s', idMap s ⊆ idMap s')).
    + done.
    + intros s1 s2 s3 H12 H23. by etrans.
    + intros value s0 final s0' H. by apply assign_uuid_recorded in H as [H _].
Qed.

Lemma set_uuid_items_keeps_id gen_uuid idx ect ignL parentKey its :
  ∀ cur ow st cur' st',
  "@id" ∉ dict_keys its →
  set_uuid_items gen_uuid idx ect ignL parentKey its cur ow st = Ok (cur', st') →
  dict_get "@id" cur' = dict_get "@id" cur.
Proof.
  induction its as [|[key value] rest IH]; intros cur ow st cur' st' Hid H; simpl in H.
  - by injection H as <- <-.
  - simpl in Hid. apply not_elem_of_cons in Hid as [Hne Hid].
    assert (String.eqb key "@id" = false) as Ekey
      by (apply String.eqb_neq; congruence).
    rewrite Ekey in H. simpl in H.
    destruct (match ow with Some k => String.eqb k key | None => false end);
      [by eapply IH|].
    destruct value; try (by eapply IH); unfold bind in H;
      destruct (set_uuid _ _ _ _ _ _ st) as [[v st1]|]; try done;
      (rewrite (IH _ _ _ _ _ Hid H); apply dict_get_set_ne; congruence).
Qed.

Lemma relabel_keeps_id idx ect value final cur r :
  resolve_key idx "label" rdfs_label ≠ Ok "@id" →
  relabel idx ect value final cur = Ok r → dict_get "@id" (snd r) = dict_get "@id" cur.
Proof.
  intros Hlk. unfold relabel, rbind.
  destruct (resolve_key idx "label" rdfs_label) as [lk|]; [|done].
  destruct (dict_has lk cur); [|by intros [= <-]].
  destruct (tuple_item ect 1); [|done]. intros [= <-]. simpl.
  apply dict_get_set_ne. congruence.
Qed.

Lemma set_uuid_items_final gen_uuid idx ect ignL parentKey its :
  ∀ cur ow st cur' st' v,
  resolve_key idx "label" rdfs_label ≠ Ok "@id" →
  parent_in parentKey ignL = false →
  NoDup (dict_keys its) → dict_get "@id" its = Some (PStr v) →
  set_uuid_items gen_uuid idx ect ignL parentKey its cur ow st = Ok (cur', st') →
  ∃ final, dict_get "@id" cur' = Some (PStr final) ∧ idMap st' !! v = Some final.
Proof.
  induction its as [|[key value] rest IH]; intros cur ow st cur' st' v Hlk Hp Hnd Hget H;
    [done|].
  simpl in Hnd. apply NoDup_cons in Hnd as [Hnotin Hnd].
  cbn [dict_get] in Hget. simpl in H. rewrite Hp in H. simpl in H.
  destruct (String.eqb "@id" key) eqn:E; try rewrite E in Hget.
  - apply String.eqb_eq in E as <-. injection Hget as ->.
    simpl in H. unfold bind in H.
    destruct (assign_uuid gen_uuid ect (PStr v) st) as [[final st1]|] eqn:Ea; [|done].
    unfold lift in H. destruct (relabel _ _ _ _ _) as [r|] eqn:Er; [|done].
    apply assign_uuid_recorded in Ea as (_ & v' & [= <-] & Hrec).
    apply (relabel_keeps_id _ _ _ _ _ _ Hlk) in Er. rewrite dict_get_set_eq in Er.
    exists final. split.
    + rewrite (set_uuid_items_keeps_id _ _ _ _ _ _ _ _ _ _ _ Hnotin H). done.
    + apply set_uuid_items_idMap in H. by eapply lookup_weaken.
  - assert (String.eqb key "@id" = false) as Ekey.
    { rewrite String.eqb_sym. done. }
    rewrite Ekey in H. simpl in H.
    destruct (match ow with Some k => String.eqb k key | None => false end);
      [by eapply IH|].
    destruct value; try (by eapply IH); unfold bind in H;
      destruct (set_uuid _ _ _ _ _ _ st) as [[x st1]|]; try done; by eapply IH.
Qed.

(** X12: in a dictionary without repeated keys whose parent key is not an
    ignored one, an "@id" entry holding the interim identifier [v] comes
    out of the identity pass holding the final identifier that [idMap]
    records for [v] when the pass is over (the label key being another key
    than "@id"). All references to one interim identifier therefore carry
    one and the same final identifier. *)
Theorem reference_becomes_final_identifier
    gen_uuid idx ect ignL items parentKey v st r st' :
  resolve_key idx "label" rdfs_label ≠ Ok "@id" →
  parent_in parentKey ignL = false →
  NoDup (dict_keys items) → dict_get "@id" items = Some (PStr v) →
  set_uuid gen_uuid idx ect ignL (PDict items) parentKey st = Ok (r, st') →
  ∃ cur final, r = PDict cur ∧ dict_get "@id" cur = Some (PStr final) ∧
               idMap st' !! v = Some final.
Proof.
  intros Hlk Hp Hnd Hget H. rewrite set_uuid_dict in H. unfold bind in H.
  destruct (set_uuid_items _ _ _ _ _ items items None st) as [[cur s1]|] eqn:E; [|done].
  injection H as <- <-.
  destruct (set_uuid_items_final _ _ _ _ _ _ _ _ _ _ _ _ Hlk Hp Hnd Hget E)
    as (final & H1 & H2).
  by exists cur, final.
Qed.

Lemma reference_becomes_final_identifier_witness :
  let items := [("@type", PList [PStr "default"]); ("@id", PStr "Person_1");
                (rdfs_label, PStr "Person")] in
  ∃ r st', set_uuid example_uuid (create_labelmaps [] [])
             ["entity"; "http://example.org/entity/"] [] (PDict items) None
             {| idMap := ∅; drawn := O |} = Ok (r, st') ∧
    ∃ cur final, r = PDict cur ∧ dict_get "@id" cur = Some (PStr final) ∧
                 idMap st' !! "Person_1" = Some final.
Proof.
  intros items.
  destruct (set_uuid example_uuid (create_labelmaps [] [])
              ["entity"; "http://example.org/entity/"] [] (PDict items) None
              {| idMap := ∅; drawn := O |}) as [[r st']|] eqn:E; [|by vm_compute in E].
  exists r, st'. split; [done|].
  apply (reference_becomes_final_identifier example_uuid (create_labelmaps [] [])
           ["entity"; "http://example.org/entity/"] [] items None "Person_1"
           {| idMap := ∅; drawn := O |} r st').
  - by vm_compute.
  - reflexivity.
  - apply (bool_decide_unpack _). by vm_compute.
  - reflexivity.
  - exact E.
Defined.

(** ** The instances that leave the identity pass *)

Lemma dict_has_keys {V W} k (d : list (string * V)) (d' : list (string * W)) :
  dict_keys d' = dict_keys d → dict_has k d' = dict_has k d.
Proof.
  intros Hk. unfold dict_has.
  destruct (dict_get k d') as [x|] eqn:E; destruct (dict_get k d) as [y|] eqn:E';
    try done.
  - apply dict_get_Some_keys in E. rewrite Hk in E.
    apply dict_keys_get in E as [z Hz]. congruence.
  - apply dict_get_Some_keys in E'. rewrite <- Hk in E'.
    apply dict_keys_get in E' as [z Hz]. congruence.
Qed.

Lemma set_uuid_elems_Forall2 gen_uuid idx ect ignL l : ∀ st l' st',
  set_uuid_elems gen_uuid idx ect ignL l st = Ok (l', st') →
  Forall2 (λ x r, ∀ d', r = PDict d' → ∃ d, x = PDict d ∧ dict_keys d' = dict_keys d) l l'.
Proof.
  induction l as [|x l IH]; intros st l' st' H; simpl in H.
  - injection H as <- <-. constructor.
  - unfold bind in H.
    destruct (set_uuid _ _ _ _ x None st) as [[r s1]|] eqn:Ex; [|done].
    destruct (set_uuid_elems _ _ _ _ l s1) as [[rs s2]|] eqn:E; [|done].
    injection H as <- <-. constructor; [|by eapply IH].
    intros d' ->. destruct x as [| | | | |l0|d]; try (by injection Ex).
    + rewrite set_uuid_list in Ex. unfold bind in Ex.
      by destruct (set_uuid_elems _ _ _ _ l0 st) as [[? ?]|].
    + rewrite set_uuid_dict in Ex. unfold bind in Ex.
      destruct (set_uuid_items _ _ _ _ _ d d None st) as [[cur s3]|] eqn:Ei; [|done].
      injection Ex as <- <-. exists d. split; [done|]. by eapply set_uuid_items_keys.
Qed.

Lemma apply_context_Forall2 context l l' :
  apply_context context l = Ok l' →
  Forall2 (λ x r, ∃ d, x = PDict d ∧ r = PDict (dict_set "@context" (PDict context) d)) l l'.
Proof.
  induction l as [|x l IH] in l' |- *; simpl; intros H.
  - injection H as <-. constructor.
  - destruct x; try done. unfold rbind in H.
    destruct (apply_context context l) as [rs|]; [|done].
    injection H as <-. constructor; [by eexists | by apply IH].
Qed.

Lemma apply_uuids_contextualised gen_uuid idx ect ignL context instances out st' :
  apply_uuids gen_uuid idx ect ignL context instances = Ok (out, st') →
  Forall2 (contextualised context) instances out.
Proof.
  unfold apply_uuids. intros H.
  rewrite set_uuid_list in H. unfold bind in H.
  destruct (set_uuid_elems _ _ _ _ instances _) as [[l s1]|] eqn:E; [|done].
  simpl in H. unfold rbind in H.
  destruct (apply_context context l) as [l'|] eqn:Ec; [|done].
  injection H as <- <-.
  apply set_uuid_elems_Forall2 in E. apply apply_context_Forall2 in Ec.
  revert E Ec. generalize l'. clear.
  induction instances as [|x xs IH] in l |- *; intros l' E Ec.
  - apply Forall2_nil_inv_l in E as ->. apply Forall2_nil_inv_l in Ec as ->. constructor.
  - apply Forall2_cons_inv_l in E as (r & rs & Hr & Hrs & ->).
    apply Forall2_cons_inv_l in Ec as (r' & rs' & (d & -> & ->) & Hrs' & ->).
    constructor; [|by eapply IH].
    destruct (Hr d eq_refl) as (d0 & -> & Hk).
    exists d0, (dict_set "@context" (PDict context) d). split; [done|]. split; [done|].
    split; [apply dict_get_set_eq|].
    rewrite !dict_keys_set. rewrite (dict_has_keys "@context" d0 d Hk). by rewrite Hk.
Qed.

(** X13: a successful identity pass returns as many instances as it was
    given, in the same order; each instance given is a dictionary, and what
    is returned for it is a dictionary with the same keys plus "@context",
    under which the namespace context stands. *)
Theorem identity_pass_attaches_context gen_uuid idx ect ignL context instances out st' :
  apply_uuids gen_uuid idx ect ignL context instances = Ok (out, st') →
  Forall2 (contextualised context) instances out.
Proof. apply apply_uuids_contextualised. Qed.

Lemma identity_pass_attaches_context_witness :
  let instances := [PDict [("@id", PStr "Person_1")]; PDict [("@id", PStr "entity:bob")]] in
  let context := [("entity", PStr "http://example.org/entity/")] in
  ∃ out st', apply_uuids example_uuid (create_labelmaps [] [])
               ["entity"; "http://example.org/entity/"] [] context instances = Ok (out, st') ∧
             Forall2 (contextualised context) instances out.
Proof.
  intros instances context.
  destruct (apply_uuids example_uuid (create_labelmaps [] [])
              ["entity"; "http://example.org/entity/"] [] context instances)
    as [[out st']|] eqn:E; [|by vm_compute in E].
  exists out, st'. split; [done|].
  exact (identity_pass_attaches_context _ _ _ _ _ _ _ _ E).
Defined.

(** ** A whole run *)

Lemma set_namespaces_list_length idx l l' :
  set_namespaces idx (PList l) = Ok (PList l') → length l' = length l.
Proof.
  simpl. unfold rbind.
  set (elems := fix elems (l : list pyval) : result (list pyval) :=
                  match l with
                  | [] => Ok []
                  | elem :: rest =>
                      match set_namespaces idx elem with
                      | Ok a => match elems rest with Ok a0 => Ok (a :: a0) | Err e => Err e end
                      | Err e => Err e
                      end
                  end).
  destruct (elems l) as [tmp|] eqn:E; [|done]. intros [= <-].
  clear -E. induction l as [|x l IH] in tmp, E |- *; simpl in E.
  - by injection E as <-.
  - destruct (set_namespaces idx x); [|done].
    destruct (elems l) as [rs|] eqn:E'; [|done].
    injection E as <-. simpl. f_equal. by apply IH.
Qed.

Lemma create_jsonld_instances_counter idx ign canon counter instances st :
  create_jsonld_instances idx ign canon counter = Ok (instances, st) →
  counter ≤ incrementalInt st.
Proof.
  unfold create_jsonld_instances. intros H.
  destruct (fill_class_map idx ign canon false _) as [[r st1]|] eqn:E; [|done].
  injection H as <- <-.
  change counter with (incrementalInt {| incrementalInt := counter; classMap := [] |}).
  revert E. apply (fill_class_map_steps (λ s s', incrementalInt s ≤ incrementalInt s'));
    simpl; intros; lia.
Qed.

(** X14: the ontologies are parsed before anything else, so an ontology
    rdflib cannot parse ends the run with rdflib's error whatever the other
    inputs are. Once they are parsed, a run fails with "Entity Context must
    be a Tuple of 2 columns" when the entity context does not have exactly
    two components, whatever the remaining inputs are. When a run succeeds,
    the ontologies were parsed, the entity context is a pair of a prefix and
    an IRI, the structural pass succeeded on the canonical JSON, there is
    one final instance for each instance it produced, every final instance
    is a dictionary whose "@context" binds the prefix to the IRI, and the
    counter did not go down. *)
Theorem run_outcome environ gen_uuid counter canon ontos context
    entityContextTuple ignore :
  (∀ e, ontos = Err e →
     Mapper_map environ gen_uuid counter canon ontos context entityContextTuple ignore
     = Err e) ∧
  (∀ rows, ontos = Ok rows → length entityContextTuple ≠ 2%nat →
     Mapper_map environ gen_uuid counter canon ontos context entityContextTuple ignore
     = Err (Exception "Entity Context must be a Tuple of 2 columns")) ∧
  (∀ out,
     Mapper_map environ gen_uuid counter canon ontos context entityContextTuple ignore
       = Ok out →
     ∃ label_rows altlabel_rows prefix iri instances st,
       ontos = Ok (label_rows, altlabel_rows) ∧
       entityContextTuple = [prefix; iri] ∧
       create_jsonld_instances (create_labelmaps label_rows altlabel_rows) ignore canon counter
         = Ok (instances, st) ∧
       length (classList out) = length instances ∧
       final_counter out = incrementalInt st ∧ counter ≤ final_counter out ∧
       Forall (λ e, ∃ d ctx, e = PDict d ∧ dict_get "@context" d = Some (PDict ctx) ∧
                             dict_get prefix ctx = Some (PStr iri)) (classList out)).
Proof.
  split; [|split].
  - by intros e ->.
  - intros [label_rows altlabel_rows] -> Hlen. unfold Mapper_map, rbind.
    destruct (length entityContextTuple =? 2)%nat eqn:E; [|done].
    by apply Nat.eqb_eq in E.
  - intros out H. unfold Mapper_map in H.
    destruct ontos as [[label_rows altlabel_rows]|]; [|done].
    unfold rbind at 1 in H.
    destruct (length entityContextTuple =? 2)%nat eqn:E; [|done].
    apply Nat.eqb_eq in E.
    destruct entityContextTuple as [|prefix [|iri [|]]]; try done.
    change (tuple_item [prefix; iri] 0) with (@Ok string prefix) in H.
    change (tuple_item [prefix; iri] 1) with (@Ok string iri) in H.
    unfold rbind in H. cbv beta iota zeta in H.
    destruct (create_entity_instation_entity_list _ ignore) as [ignL|]; [|done].
    destruct (create_jsonld_instances _ ignore canon counter) as [[instances st]|] eqn:Ei;
      [|done].
    destruct (set_namespaces _ (PList instances)) as [namespaced|] eqn:En; [|done].
    destruct namespaced as [| | | | |l|]; try done.
    destruct (apply_uuids _ _ _ _ _ l) as [[final ust]|] eqn:Eu; [|done].
    injection H as <-. simpl.
    exists label_rows, altlabel_rows, prefix, iri, instances, st.
    split; [done|]. split; [done|]. split; [done|].
    apply set_namespaces_list_length in En.
    apply apply_uuids_contextualised in Eu.
    split; [by rewrite <- En, (Forall2_length _ _ _ Eu)|]. split; [done|]. split.
    + by eapply create_jsonld_instances_counter.
    + clear -Eu. induction Eu as [|x r xs rs (d & d' & -> & -> & Hctx & _) _ IH];
        constructor; [|done].
      exists d', (dict_set prefix (PStr iri) context). split; [done|]. split; [done|].
      apply dict_get_set_eq.
Qed.

Lemma run_outcome_witness :
  let canon := PDict [("Person", PDict [("name", PStr "Ada")])] in
  Mapper_map [] example_uuid 0 canon (Err (ParserError "not an ontology")) []
    ["entity"] [] = Err (ParserError "not an ontology") ∧
  Mapper_map [] example_uuid 0 canon (Ok ([], [])) [] ["entity"] []
    = Err (Exception "Entity Context must be a Tuple of 2 columns") ∧
  ∃ out, Mapper_map [] example_uuid 0 canon (Ok ([], [])) []
           ["entity"; "http://example.org/entity/"] [] = Ok out ∧
         length (classList out) = 1%nat ∧ 0 ≤ final_counter out.
Proof.
  intros canon. split; [|split].
  - by apply (proj1 (run_outcome [] example_uuid 0 canon
                       (Err (ParserError "not an ontology")) [] ["entity"] [])).
  - apply (proj1 (proj2 (run_outcome [] example_uuid 0 canon (Ok ([], [])) []
                           ["entity"] [])) ([], [])); [done|].
    simpl. lia.
  - destruct (Mapper_map [] example_uuid 0 canon (Ok ([], [])) []
                ["entity"; "http://example.org/entity/"] []) as [out|] eqn:E;
      [|by vm_compute in E].
    exists out. split; [done|].
    destruct (proj2 (proj2 (run_outcome [] example_uuid 0 canon (Ok ([], [])) []
                       ["entity"; "http://example.org/entity/"] [])) out E)
      as (lr & alr & prefix & iri & instances & st & Ho & _ & Hi & Hlen & _ & Hc & _).
    injection Ho as <- <-.
    split; [|done]. rewrite Hlen. vm_compute in Hi. by injection Hi as <- <-.
Defined.

(** ** Identifiers made from the counter *)

Lemma string_of_Z_inj a b : string_of_Z a = string_of_Z b → a = b.
Proof.
  unfold string_of_Z. intros H.
  assert (Hnn : ∀ z, Z.to_int z ≠ Decimal.Pos Decimal.Nil ∧
                     Z.to_int z ≠ Decimal.Neg Decimal.Nil).
  { intros [|p|p]; simpl; split; try discriminate; intros [= Hp];
      by apply DecimalPos.Unsigned.to_uint_nonnil in Hp. }
  apply (f_equal NilZero.int_of_string) in H.
  rewrite !NilZero.isi in H by apply Hnn.
  injection H as H. apply (f_equal Z.of_int) in H. by rewrite !DecimalZ.of_to in H.
Qed.

(** X15: identifiers made from the counter tell counter values apart: two
    entities under the same key, neither with a [hasIdentifier] entry, get
    the same interim identifier only if the counter stood at the same value,
    and likewise the sub-identifiers of two objects under the same lowercase
    key. But a counter-made identifier is not kept apart from a given one:
    an entity whose [hasIdentifier] entry is the number the counter reaches
    next gets the very identifier of an entity without [hasIdentifier]. *)
Theorem counter_identifiers self idx ign h key :
  (∀ v1 v2 st1 st2 i1 i2 st1' st2',
     dict_get "hasIdentifier" v1 = None → dict_get "hasIdentifier" v2 = None →
     entity_identifier key v1 st1 = Ok (i1, st1') →
     entity_identifier key v2 st2 = Ok (i2, st2') →
     i1 = i2 → incrementalInt st1 = incrementalInt st2) ∧
  (∀ c inner1 inner2 tmp1 tmp2 st1 st2 tmp1' tmp2' st1' st2',
     well_formed idx → first_char key = Ok c → is_lower c = true →
     key ≠ "hasIdentifier" → key ≠ "listHandler" →
     fill_item self idx ign h key (PDict inner1) tmp1 st1 = Ok (tmp1', st1') →
     fill_item self idx ign h key (PDict inner2) tmp2 st2 = Ok (tmp2', st2') →
     dict_get key tmp1' = dict_get key tmp2' →
     incrementalInt st1 = incrementalInt st2) ∧
  (∀ value st st2 i st',
     dict_get "hasIdentifier" value = None →
     entity_identifier key value st = Ok (i, st') →
     entity_identifier key [("hasIdentifier", PInt (incrementalInt st + 1))] st2
       = Ok (i, st2)).
Proof.
  split; [|split].
  - intros v1 v2 st1 st2 i1 i2 st1' st2' H1 H2 E1 E2 Heq.
    rewrite (entity_identifier_counter _ _ _ _ (given_identifier_None _ H1)) in E1.
    rewrite (entity_identifier_counter _ _ _ _ (given_identifier_None _ H2)) in E2.
    injection E1 as <- _. injection E2 as <- _.
    apply append_inv_head, append_inv_head, string_of_Z_inj in Heq. lia.
  - intros c inner1 inner2 tmp1 tmp2 st1 st2 tmp1' tmp2' st1' st2' Hwf Hc Hlow Hh Hl E1 E2 Heq.
    apply String.eqb_neq in Hh, Hl.
    destruct (fill_item_prelude self idx ign h key c (PDict inner1) tmp1 st1 Hwf Hc Hl Hh)
      as (cls1 & _ & R1).
    destruct (fill_item_prelude self idx ign h key c (PDict inner2) tmp2 st2 Hwf Hc Hl Hh)
      as (cls2 & _ & R2).
    rewrite R1 in E1. rewrite R2 in E2.
    destruct (is_upper c) eqn:Hu; [by rewrite (upper_not_lower c Hu) in Hlow|].
    rewrite Hlow in E1, E2. unfold bind, get_incremental_int, ret in E1, E2.
    injection E1 as <- _. injection E2 as <- _.
    rewrite !dict_get_set_eq in Heq. injection Heq as Heq.
    apply append_inv_head, append_inv_head, string_of_Z_inj in Heq. lia.
  - intros value st st2 i st' Hnone E.
    rewrite (entity_identifier_counter _ _ _ _ (given_identifier_None _ Hnone)) in E.
    by injection E as <- _.
Qed.

Lemma counter_identifiers_witness :
  incrementalInt {| incrementalInt := 4; classMap := [] |} =
    incrementalInt {| incrementalInt := 4; classMap := [("Person_1", [])] |} ∧
  incrementalInt {| incrementalInt := 7; classMap := [] |} =
    incrementalInt {| incrementalInt := 7; classMap := [("Person_1", [])] |} ∧
  entity_identifier "Person" [("hasIdentifier", PInt (0 + 1))]
    {| incrementalInt := 41; classMap := [] |}
    = Ok ("Person_1", {| incrementalInt := 41; classMap := [] |}).
Proof.
  pose proof (counter_identifiers (λ _ _, raise TypeError) (create_labelmaps [] [])
                [] (PList []) "Person") as (H1 & _ & H3).
  pose proof (counter_identifiers (λ _ _, raise TypeError) (create_labelmaps [] [])
                [] (PList []) "ölstand") as (_ & H2 & _).
  split; [|split].
  - apply (H1 [("name", PStr "Ada")] [("name", PStr "Bob")]
             {| incrementalInt := 4; classMap := [] |}
             {| incrementalInt := 4; classMap := [("Person_1", [])] |}
             "Person_5" "Person_5"
             {| incrementalInt := 5; classMap := [] |}
             {| incrementalInt := 5; classMap := [("Person_1", [])] |});
      reflexivity.
  - apply (H2 246%N [("city", PStr "Bonn")] [] [] [("@id", PStr "x")]
             {| incrementalInt := 7; classMap := [] |}
             {| incrementalInt := 7; classMap := [("Person_1", [])] |}
             [("ölstand", PDict [("@id", PStr "ölstand_sub_8")])]
             [("@id", PStr "x"); ("ölstand", PDict [("@id", PStr "ölstand_sub_8")])]
             {| incrementalInt := 8; classMap := [] |}
             {| incrementalInt := 8; classMap := [("Person_1", [])] |});
      try reflexivity; try discriminate.
    apply create_labelmaps_well_formed.
  - apply (H3 [("name", PStr "Ada")]
             {| incrementalInt := 0; classMap := [] |}
             {| incrementalInt := 41; classMap := [] |} "Person_1"
             {| incrementalInt := 1; classMap := [] |}); reflexivity.
Defined.

(** ** The display label *)






